(** * Geometric algorithms: convex hulls and segment intersection

    A shallow embedding of [Source/Convex_Hull.py] and
    [Source/Line_Intersection.py].

    Points are the integer pairs the canvas produces ([event.x], [event.y]).
    Python lists are Rocq lists; a [for] loop is a fold, a [while] loop whose
    termination is not evident from its shape takes a step budget and answers
    [Timeout] when the budget is used up.  Exceptions are values of
    [outcome].  The two places where the code goes through floating point
    ([math.atan2] as a sort key, and the centroid division of QuickHull) are
    idealised: coordinates and quotients are exact rationals, and an angle
    is compared as the real number [atan2 y x] in (-pi, pi]. *)

From Stdlib Require Import ZArith List Bool Lia QArith Lqa Permutation Sorted.
Import ListNotations.
Open Scope Z_scope.

(** ** The Python values the two modules work with *)

Definition Point : Type := (Z * Z)%type.

(** [p[0]] and [p[1]]. *)
Definition px (p : Point) : Z := fst p.
Definition py (p : Point) : Z := snd p.

Definition point_eqb (p q : Point) : bool :=
  (px p =? px q) && (py p =? py q).

Inductive exn : Type :=
| TypeError
| IndexError
| ValueError.

(** What a call does: it returns, it raises, or it is still running when
    the step budget ends. *)
Inductive outcome (A : Type) : Type :=
| Return (a : A)
| Raise (e : exn)
| Timeout.

Arguments Return {A} a.
Arguments Raise {A} e.
Arguments Timeout {A}.

Module Py.

(** [sorted(l, key=...)] and [list.sort(key=...)]: a stable sort, given by
    the strict comparison [ltb] of two elements' keys.  An element goes in
    front of the first later element that is not smaller than it. *)
Section Sorting.
Context {A : Type} (ltb : A -> A -> bool).

Fixpoint insert (x : A) (l : list A) : list A :=
  match l with
  | [] => [x]
  | y :: l' => if ltb y x then y :: insert x l' else x :: y :: l'
  end.

Fixpoint sorted (l : list A) : list A :=
  match l with
  | [] => []
  | x :: l' => insert x (sorted l')
  end.
End Sorting.

(** [l.index(x)]: position of the first element equal to [x]. *)
Fixpoint index (x : Point) (l : list Point) : option nat :=
  match l with
  | [] => None
  | y :: l' => if point_eqb y x then Some O
               else option_map S (index x l')
  end.

(** [del l[i]]. *)
Fixpoint del (i : nat) (l : list Point) : list Point :=
  match i, l with
  | _, [] => []
  | O, _ :: l' => l'
  | S i', y :: l' => y :: del i' l'
  end.

(** [l.remove(x)]: drops the first element equal to [x]. *)
Fixpoint remove (x : Point) (l : list Point) : list Point :=
  match l with
  | [] => []
  | y :: l' => if point_eqb y x then l' else y :: remove x l'
  end.

(** [l[i]] for an index known to be in range. *)
Definition item (l : list Point) (i : nat) : Point := nth i l (0, 0).

(** The value of [math.atan2(y, x)], kept as the vector it is the angle
    of.  Two such values are compared as real angles in (-pi, pi]: first
    by the part of the circle they fall in, then, inside an open half
    plane, by minus the cotangent [x / y], with which the angle grows. *)
Record angle : Type := atan2 { opp : Q; adj : Q }.

Definition sector (a : angle) : Z :=
  match Qcompare (opp a) 0 with
  | Lt => 0                         (* (-pi, 0) *)
  | Gt => 2                         (* (0, pi)  *)
  | Eq => match Qcompare (adj a) 0 with
          | Lt => 3                 (* pi *)
          | _ => 1                  (* 0, also atan2(0, 0) *)
          end
  end.

Definition turn (a : angle) : Q :=
  if Z.even (sector a) then (- (adj a / opp a))%Q else 0%Q.

Definition angle_compare (a b : angle) : comparison :=
  match Z.compare (sector a) (sector b) with
  | Eq => Qcompare (turn a) (turn b)
  | c => c
  end.

Definition angle_ltb (a b : angle) : bool :=
  match angle_compare a b with Lt => true | _ => false end.

Definition angle_eqb (a b : angle) : bool :=
  match angle_compare a b with Eq => true | _ => false end.

(** The generator behind [random.randint]: an arbitrary stream of draws. *)
Definition rng : Type := nat -> nat.

(** [random.randint(lo, hi)] for [lo <= hi]: some value of the range, and
    the generator moved on. *)
Definition randint (g : rng) (lo hi : nat) : nat * rng :=
  ((lo + g O mod (hi - lo + 1))%nat, fun n => g (S n)).

End Py.

(** ** Source/Line_Intersection.py *)

Module Line_Intersection.

Definition ccw (A B C : Point) : Z :=
  let val := (py B - py A) * (px C - px B) - (px B - px A) * (py C - py B) in
  if val =? 0 then 0
  else if val >? 0 then 1 else -1.

Definition do_intersect_ccw (A B C D : Point) : bool :=
  let orientation1 := ccw A B C in
  let orientation2 := ccw A B D in
  let orientation3 := ccw C D A in
  let orientation4 := ccw C D B in
  if negb (orientation1 =? orientation2) && negb (orientation3 =? orientation4)
  then true
  else if (orientation1 =? orientation2) && (orientation2 =? orientation3)
          && (orientation3 =? 0)
  then
    if ((Z.min (px A) (px B) <=? px C) && (px C <=? Z.max (px A) (px B)))
       || ((Z.min (px A) (px B) <=? px D) && (px D <=? Z.max (px A) (px B)))
       || ((Z.min (px C) (px D) <=? px A) && (px A <=? Z.max (px C) (px D)))
       || ((Z.min (px C) (px D) <=? px B) && (px B <=? Z.max (px C) (px D)))
    then true
    else false
  else false.

Definition direction (p1 p2 p3 : Point) : Z :=
  (px p2 - px p1) * (py p3 - py p1) - (py p2 - py p1) * (px p3 - px p1).

Definition on_segment (p q r : Point) : bool :=
  ((Z.min (px p) (px r) <=? px q) && (px q <=? Z.max (px p) (px r)))
  && ((Z.min (py p) (py r) <=? py q) && (py q <=? Z.max (py p) (py r))).

Definition vecotr_cross_product (p1 p2 p3 p4 : Point) : bool :=
  let d1 := direction p3 p4 p1 in
  let d2 := direction p3 p4 p2 in
  let d3 := direction p1 p2 p3 in
  let d4 := direction p1 p2 p4 in
  if (((d1 >? 0) && (d2 <? 0)) || ((d1 <? 0) && (d2 >? 0)))
     && (((d3 >? 0) && (d4 <? 0)) || ((d3 <? 0) && (d4 >? 0)))
  then true
  else if (d1 =? 0) && on_segment p3 p1 p4 then true
  else if (d2 =? 0) && on_segment p3 p2 p4 then true
  else if (d3 =? 0) && on_segment p1 p3 p2 then true
  else if (d4 =? 0) && on_segment p1 p4 p2 then true
  else false.

Definition calculate_determinant (point_1 point_2 point_3 : Point) : Z :=
  px point_1 * py point_2 + py point_1 * px point_3 + px point_2 * py point_3
  - px point_3 * py point_2 - py point_3 * px point_1 - px point_2 * py point_1.

Definition intersect (p1 p2 p3 p4 : Point) : bool :=
  if (Z.max (px p1) (px p2) <? Z.min (px p3) (px p4))
     || (Z.min (px p1) (px p2) >? Z.max (px p3) (px p4))
  then false
  else if (Z.max (py p1) (py p2) <? Z.min (py p3) (py p4))
          || (Z.min (py p1) (py p2) >? Z.max (py p3) (py p4))
  then false
  else if (calculate_determinant p1 p3 p4 * calculate_determinant p2 p3 p4 <? 0)
          && (calculate_determinant p3 p1 p2 * calculate_determinant p4 p1 p2 <? 0)
  then true
  else false.

Definition line_sweep (p1 p2 p3 p4 : Point) : bool := intersect p1 p2 p3 p4.

(** The closed intervals [[a1, a2]] and [[b1, b2]] (ends in any order)
    have a common point. *)
Definition intervals_overlap (a1 a2 b1 b2 : Z) : Prop :=
  Z.max (Z.min a1 a2) (Z.min b1 b2) <= Z.min (Z.max a1 a2) (Z.max b1 b2).

(** The bounding boxes of the segments [p1 p2] and [p3 p4] overlap on both
    axes. *)
Definition bounding_boxes_overlap (p1 p2 p3 p4 : Point) : Prop :=
  intervals_overlap (px p1) (px p2) (px p3) (px p4)
  /\ intervals_overlap (py p1) (py p2) (py p3) (py p4).

End Line_Intersection.

(** ** Source/Convex_Hull.py *)

(** Sequencing of calls that may raise or run out of budget. *)
Definition bind {A B : Type} (m : outcome A) (k : A -> outcome B) : outcome B :=
  match m with
  | Return a => k a
  | Raise e => Raise e
  | Timeout => Timeout
  end.

Notation "x <- m ;; k" := (bind m (fun x => k))
  (at level 61, m at next level, right associativity).
Notation "' p <- m ;; k" := (bind m (fun p => k))
  (at level 61, p pattern, m at next level, right associativity).

(** [quickhull] hands back the input list for at most one point and a list
    of edges otherwise; the other four methods hand back vertices. *)
Inductive hull_shape : Type :=
| Vertices (l : list Point)
| Edges (l : list (Point * Point)).

Module Convex_Hull.
Import Py.

(** *** graham_scan *)

Module GrahamScan.

Definition polar_angle (p0 p1 : Point) : angle :=
  let y_span := py p0 - py p1 in
  let x_span := px p0 - px p1 in
  atan2 (inject_Z y_span) (inject_Z x_span).

Definition distance (p0 p1 : Point) : Z :=
  let y_span := py p0 - py p1 in
  let x_span := px p0 - px p1 in
  y_span ^ 2 + x_span ^ 2.

(** The three lists the partition loop fills, in the order of [a]. *)
Definition smaller_of (anchor : Point) (piv_ang : angle) (a : list Point) :=
  filter (fun pt => angle_ltb (polar_angle pt anchor) piv_ang) a.
Definition equal_of (anchor : Point) (piv_ang : angle) (a : list Point) :=
  filter (fun pt => negb (angle_ltb (polar_angle pt anchor) piv_ang)
                    && angle_eqb (polar_angle pt anchor) piv_ang) a.
Definition larger_of (anchor : Point) (piv_ang : angle) (a : list Point) :=
  filter (fun pt => negb (angle_ltb (polar_angle pt anchor) piv_ang)
                    && negb (angle_eqb (polar_angle pt anchor) piv_ang)) a.

(** [anchor] is the global the helpers read.  The budget bounds the
    depth of the recursion. *)
Fixpoint quicksort (budget : nat) (anchor : Point) (a : list Point)
         (g : rng) : outcome (list Point * rng) :=
  if (length a <=? 1)%nat then Return (a, g)
  else
    match budget with
    | O => Timeout
    | S budget' =>
        let (k, g) := randint g 0 (length a - 1) in
        let piv_ang := polar_angle (item a k) anchor in
        let smaller := smaller_of anchor piv_ang a in
        let equal := equal_of anchor piv_ang a in
        let larger := larger_of anchor piv_ang a in
        '(s, g) <- quicksort budget' anchor smaller g ;;
        '(l, g) <- quicksort budget' anchor larger g ;;
        Return (s ++ sorted (fun p q => distance p anchor <? distance q anchor)
                            equal ++ l, g)
    end.

(** One round of the loop that looks for the lowest point. *)
Definition min_idx_step (points : list Point) (min_idx : option nat)
           (ixy : nat * Point) : option nat :=
  let '(i, (x, y)) := ixy in
  let m := match min_idx with
           | None => i
           | Some m => if y <? py (item points m) then i else m
           end in
  Some (if (y =? py (item points m)) && (x <? px (item points m))
        then i else m).

Definition find_min_idx (points : list Point) : option nat :=
  fold_left (min_idx_step points)
            (combine (seq 0 (length points)) points) None.

Definition det (p1 p2 p3 : Point) : Z :=
  (px p2 - px p1) * (py p3 - py p1) - (py p2 - py p1) * (px p3 - px p1).

(** The inner [while] loop.  The hull is held last element first. *)
Fixpoint backtrack (hull : list Point) (s : Point) : list Point :=
  match hull with
  | h1 :: ((h2 :: _) as hull') =>
      if det h2 h1 s <=? 0 then backtrack hull' s else hull
  | _ => hull
  end.

Definition scan (hull : list Point) (rest : list Point) : list Point :=
  fold_left (fun hull s => s :: backtrack hull s) rest hull.

End GrahamScan.

Definition graham_scan (g : rng) (points : list Point)
  : outcome (list Point) :=
  match GrahamScan.find_min_idx points with
  | None => Raise TypeError                     (* self.points[None] *)
  | Some min_idx =>
      let anchor := item points min_idx in
      '(sorted_pts, _) <-
         GrahamScan.quicksort (length points) anchor points g ;;
      match index anchor sorted_pts with
      | None => Raise ValueError
      | Some i =>
          match del i sorted_pts with
          | [] => Raise IndexError              (* sorted_pts[0] *)
          | s0 :: rest =>
              Return (rev (GrahamScan.scan [s0; anchor] rest))
          end
      end
  end.

(** *** jarvis_march_convex_hull *)

Module JarvisMarch.

Definition orientation (p q r : Point) : Z :=
  let val := (py q - py p) * (px r - px q) - (px q - px p) * (py r - py q) in
  if val =? 0 then 0
  else if val >? 0 then 1 else -1.

(** [min(self.points, key=lambda p: (p[1], p[0]))]: the first point
    with the least key. *)
Definition key_ltb (p q : Point) : bool :=
  (py p <? py q) || ((py p =? py q) && (px p <? px q)).

Definition min_by_key (points : list Point) : Point :=
  fold_left (fun best p => if key_ltb p best then p else best)
            (tl points) (item points 0).

(** The [for] loop that picks the next endpoint. *)
Definition next_endpoint (points : list Point) (pivot : Point) : Point :=
  fold_left (fun endpoint pi =>
               if point_eqb endpoint pivot
                  || (orientation pivot endpoint pi =? -1)
               then pi else endpoint)
            (tl points) (item points 0).

(** The [while True] loop, one round per unit of budget. *)
Fixpoint march (budget : nat) (points hull : list Point) (pivot : Point)
  : outcome (list Point) :=
  match budget with
  | O => Timeout
  | S budget' =>
      let hull := hull ++ [pivot] in
      let endpoint := next_endpoint points pivot in
      if point_eqb endpoint (item hull 0) then Return hull
      else march budget' points hull endpoint
  end.

End JarvisMarch.

Definition jarvis_march_convex_hull (budget : nat) (points : list Point)
  : outcome (list Point) :=
  let n := length points in
  if (n <? 3)%nat then Raise ValueError
  else JarvisMarch.march budget points [] (JarvisMarch.min_by_key points).

(** *** quickhull *)

Module QuickHull.

Definition calculate_determinant (point_1 point_2 point_3 : Point) : Z :=
  px point_1 * py point_2 + py point_1 * px point_3
  + px point_2 * py point_3
  - px point_3 * py point_2 - py point_3 * px point_1
  - px point_2 * py point_1.

Definition find_min_and_max (points : list Point) : Point * Point :=
  fold_left (fun '(minimum_point, maximum_point) point =>
               (if px point <=? px minimum_point
                then point else minimum_point,
                if px point >=? px maximum_point
                then point else maximum_point))
            points (item points 0, item points 0).

Definition calc_line_dist (min_absis max_absis point : Point) : Z :=
  Z.abs ((py point - py min_absis) * (px max_absis - px min_absis)
         - (py max_absis - py min_absis) * (px point - px min_absis)).

Definition off_boundary (min_absis max_absis point : Point) : bool :=
  negb (point_eqb point min_absis) && negb (point_eqb point max_absis).

Definition divide_side (points : list Point) (min_absis max_absis : Point)
  : list Point * list Point :=
  (filter (fun point =>
             off_boundary min_absis max_absis point
             && (calculate_determinant min_absis max_absis point >? 0))
          points,
   filter (fun point =>
             off_boundary min_absis max_absis point
             && (calculate_determinant min_absis max_absis point <? 0))
          points).

Definition find_max_distance (points : list Point)
           (min_absis max_absis : Point) : Point :=
  let '(_, index_of_max) :=
    fold_left (fun '(max_distance, index_of_max) i =>
                 let curr_distance :=
                   calc_line_dist min_absis max_absis (item points i) in
                 if curr_distance >? max_distance
                 then (curr_distance, i)
                 else (max_distance, index_of_max))
              (seq 0 (length points)) (0, O) in
  item points index_of_max.

(** [quick_hull_left] and [quick_hull_right] answer with the points
    they append to [list_of_hull], in the order they append them. *)
Fixpoint quick_hull_left (budget : nat) (points : list Point)
         (min_absis max_absis : Point) : outcome (list Point) :=
  match points with
  | [] => Return []
  | _ :: _ =>
      match budget with
      | O => Timeout
      | S budget' =>
          let max_point := find_max_distance points min_absis max_absis in
          let points := remove max_point points in
          let first_side := fst (divide_side points min_absis max_point) in
          let second_side := fst (divide_side points max_point max_absis) in
          h1 <- quick_hull_left budget' first_side min_absis max_point ;;
          h2 <- quick_hull_left budget' second_side max_point max_absis ;;
          Return (max_point :: h1 ++ h2)
      end
  end.

Fixpoint quick_hull_right (budget : nat) (points : list Point)
         (min_absis max_absis : Point) : outcome (list Point) :=
  match points with
  | [] => Return []
  | _ :: _ =>
      match budget with
      | O => Timeout
      | S budget' =>
          let max_point := find_max_distance points min_absis max_absis in
          let points := remove max_point points in
          let first_side := snd (divide_side points min_absis max_point) in
          let second_side := snd (divide_side points max_point max_absis) in
          h1 <- quick_hull_right budget' first_side min_absis max_point ;;
          h2 <- quick_hull_right budget' second_side max_point max_absis ;;
          Return (max_point :: h1 ++ h2)
      end
  end.

Definition sum (l : list Z) : Z := fold_left Z.add l 0.

(** The sort key: the angle of a point seen from the centre. *)
Definition centre_key (central_x central_y : Q) (point : Point) : angle :=
  atan2 (inject_Z (px point) - central_x) (inject_Z (py point) - central_y).

Definition sort_around_centre (list_of_hull : list Point) : list Point :=
  let central_x := (inject_Z (sum (map px list_of_hull))
                    / inject_Z (Z.of_nat (length list_of_hull)))%Q in
  let central_y := (inject_Z (sum (map py list_of_hull))
                    / inject_Z (Z.of_nat (length list_of_hull)))%Q in
  sorted (fun p q => angle_ltb (centre_key central_x central_y p)
                               (centre_key central_x central_y q))
         list_of_hull.

Definition edges (list_of_hull : list Point) : list (Point * Point) :=
  map (fun i => if (i =? length list_of_hull - 1)%nat
                then (item list_of_hull i, item list_of_hull 0)
                else (item list_of_hull i, item list_of_hull (i + 1)))
      (seq 0 (length list_of_hull)).

End QuickHull.

Definition quickhull (points : list Point) : outcome hull_shape :=
  if (length points <=? 1)%nat then Return (Vertices points)
  else
    let '(min_absis, max_absis) := QuickHull.find_min_and_max points in
    let '(left_hull, right_hull) :=
      QuickHull.divide_side points min_absis max_absis in
    l <- QuickHull.quick_hull_left (length left_hull) left_hull
           min_absis max_absis ;;
    r <- QuickHull.quick_hull_right (length right_hull) right_hull
           min_absis max_absis ;;
    let list_of_hull := [min_absis; max_absis] ++ l ++ r in
    Return (Edges (QuickHull.edges (QuickHull.sort_around_centre list_of_hull))).

(** *** brute_force *)

Module BruteForce.

Definition orientation (p q r : Point) : Z :=
  let val := (py q - py p) * (px r - px q) - (px q - px p) * (py r - py q) in
  if val =? 0 then 0
  else if val >? 0 then 1 else 2.

Definition leftmost (points : list Point) : nat :=
  fold_left (fun l i => if px (item points i) <? px (item points l)
                        then i else l)
            (seq 1 (length points - 1)) O.

Definition next_vertex (points : list Point) (p : nat) : nat :=
  fold_left (fun q r =>
               if orientation (item points p) (item points q)
                              (item points r) =? 2
               then r else q)
            (seq 0 (length points)) ((p + 1) mod length points)%nat.

Fixpoint wrap (budget : nat) (points : list Point) (l p : nat)
         (hull : list Point) : outcome (list Point) :=
  match budget with
  | O => Timeout
  | S budget' =>
      let hull := hull ++ [item points p] in
      let p := next_vertex points p in
      if (p =? l)%nat then Return hull
      else wrap budget' points l p hull
  end.

End BruteForce.

Definition brute_force (budget : nat) (points : list Point)
  : outcome (list Point) :=
  let n := length points in
  if (n <? 3)%nat then Return []
  else
    let l := BruteForce.leftmost points in
    BruteForce.wrap budget points l l [].

(** *** andrews_monotone_chain *)

Module MonotoneChain.

Definition orientation (p q r : Point) : Z :=
  let val := (py q - py p) * (px r - px q) - (px q - px p) * (py r - py q) in
  if val =? 0 then 0
  else if val >? 0 then 1 else -1.

(** Python's order on tuples. *)
Definition tuple_ltb (p q : Point) : bool :=
  (px p <? px q) || ((px p =? px q) && (py p <? py q)).

(** The inner [while] loop.  A chain is held last element first. *)
Fixpoint pop_while (chain : list Point) (p : Point) : list Point :=
  match chain with
  | h1 :: ((h2 :: _) as chain') =>
      if negb (orientation h2 h1 p =? -1) then pop_while chain' p
      else chain
  | _ => chain
  end.

Definition build (points : list Point) : list Point :=
  rev (fold_left (fun chain p => p :: pop_while chain p) points []).

End MonotoneChain.

Definition andrews_monotone_chain (points : list Point)
  : outcome (list Point) :=
  let n := length points in
  if (n <? 3)%nat then Raise ValueError
  else
    let points := sorted MonotoneChain.tuple_ltb points in
    let lower_hull := MonotoneChain.build points in
    let upper_hull := MonotoneChain.build (rev points) in
    Return (removelast lower_hull ++ removelast upper_hull).

(** The vertices of a result, whatever its shape. *)
Definition vertices_of (h : hull_shape) : list Point :=
  match h with
  | Vertices l => l
  | Edges l => flat_map (fun e => [fst e; snd e]) l
  end.

End Convex_Hull.

(** The method [draw_convex_hull] picks by the text of the menu entry. *)
Inductive algorithm : Type :=
| Graham_Scan
| Jarvis_March
| Quick_Hull
| Montones_Chain
| Brute_Force.

Module App.
Import Convex_Hull.

(** The [if]/[elif] chain of [draw_convex_hull]. *)
Definition selected (a : algorithm) (g : Py.rng) (budget : nat)
           (points : list Point) : outcome hull_shape :=
  match a with
  | Graham_Scan => h <- graham_scan g points ;; Return (Vertices h)
  | Jarvis_March =>
      h <- jarvis_march_convex_hull budget points ;; Return (Vertices h)
  | Quick_Hull => quickhull points
  | Montones_Chain => h <- andrews_monotone_chain points ;; Return (Vertices h)
  | Brute_Force => h <- brute_force budget points ;; Return (Vertices h)
  end.

(** The points the application holds: [add_point] appends the pixel of a
    click on the canvas, which [__main__] makes 900 wide and 500 high. *)
Definition on_canvas (p : Point) : Prop :=
  0 <= px p <= 900 /\ 0 <= py p <= 500.

(** [draw_convex_hull] up to the drawing: nothing is computed for fewer
    than three points. *)
Definition draw_convex_hull (a : algorithm) (g : Py.rng) (budget : nat)
           (points : list Point) : option (outcome hull_shape) :=
  if (length points <? 3)%nat then None
  else Some (selected a g budget points).

End App.

(** ** The list objects behind the methods

    [self.points] is one list object that the application keeps between
    calls, and Python names are bound to objects, not to values.  Here a
    heap maps references to the contents of list objects; a method takes the
    reference of [self.points].  Every list the source creates ([[]], a
    slice, [sorted], [+]) is a new object; a list that a function creates
    and fills before any other name can reach it is allocated with the
    contents the filling loop leaves in it. *)

Module Objects.

Definition ref : Type := nat.

Record heap : Type := mkHeap { cell : ref -> list Point; next : ref }.

(** A run ends with a value, ends with an exception, or is cut off; the
    first two leave a heap behind. *)
Inductive run (A : Type) : Type :=
| Done (a : A) (h : heap)
| Failed (e : exn) (h : heap)
| Unfinished.

Arguments Done {A} a h.
Arguments Failed {A} e h.
Arguments Unfinished {A}.

Definition prog (A : Type) : Type := heap -> run A.

Definition ret {A : Type} (a : A) : prog A := fun h => Done a h.
Definition raise {A : Type} (e : exn) : prog A := fun h => Failed e h.
Definition unfinished {A : Type} : prog A := fun _ => Unfinished.

Definition and_then {A B : Type} (m : prog A) (k : A -> prog B) : prog B :=
  fun h => match m h with
           | Done a h' => k a h'
           | Failed e h' => Failed e h'
           | Unfinished => Unfinished
           end.

(** The contents of an object. *)
Definition load (r : ref) : prog (list Point) := fun h => Done (cell h r) h.

(** The heap with the object [r] changed in place. *)
Definition update (r : ref) (l : list Point) (h : heap) : heap :=
  mkHeap (fun r' => if (r' =? r)%nat then l else cell h r') (next h).

(** The heap with one more object. *)
Definition alloc (l : list Point) (h : heap) : heap :=
  mkHeap (fun r' => if (r' =? next h)%nat then l else cell h r') (S (next h)).

Definition store (r : ref) (l : list Point) : prog unit :=
  fun h => Done tt (update r l h).

Definition new (l : list Point) : prog ref :=
  fun h => Done (next h) (alloc l h).

(** What the caller sees of a run: the Python-level outcome, an object
    handed back being read in the final heap. *)
Definition observed (o : run ref) : outcome (list Point) :=
  match o with
  | Done r h => Return (cell h r)
  | Failed e _ => Raise e
  | Unfinished => Timeout
  end.

(** The heap a finished run leaves. *)
Definition final_heap {A : Type} (o : run A) : option heap :=
  match o with
  | Done _ h => Some h
  | Failed _ h => Some h
  | Unfinished => None
  end.

End Objects.

Notation "x <~ m ;; k" := (Objects.and_then m (fun x => k))
  (at level 61, m at next level, right associativity).
Notation "' p <~ m ;; k" := (Objects.and_then m (fun p => k))
  (at level 61, p pattern, m at next level, right associativity).
Notation "m ;;; k" := (Objects.and_then m (fun _ => k))
  (at level 61, right associativity).

Module Convex_Hull_Objects.
Import Py Objects Convex_Hull.

(** [quicksort(a)]: the argument itself for at most one element, a new
    list otherwise. *)
Fixpoint quicksort (budget : nat) (anchor : Point) (a : ref) (g : rng)
  : prog (ref * rng) :=
  av <~ load a ;;
  if (length av <=? 1)%nat then ret (a, g)
  else
    match budget with
    | O => unfinished
    | S budget' =>
        let (k, g) := randint g 0 (length av - 1) in
        let piv_ang := GrahamScan.polar_angle (item av k) anchor in
        smaller <~ new (GrahamScan.smaller_of anchor piv_ang av) ;;
        equal <~ new (GrahamScan.equal_of anchor piv_ang av) ;;
        larger <~ new (GrahamScan.larger_of anchor piv_ang av) ;;
        '(s, g) <~ quicksort budget' anchor smaller g ;;
        ev <~ load equal ;;
        e <~ new (sorted (fun p q => GrahamScan.distance p anchor
                                     <? GrahamScan.distance q anchor) ev) ;;
        sv <~ load s ;;
        ev <~ load e ;;
        se <~ new (sv ++ ev) ;;
        '(l, g) <~ quicksort budget' anchor larger g ;;
        sev <~ load se ;;
        lv <~ load l ;;
        r <~ new (sev ++ lv) ;;
        ret (r, g)
    end.

Definition graham_scan (g : rng) (self_points : ref) : prog ref :=
  points <~ load self_points ;;
  match GrahamScan.find_min_idx points with
  | None => raise TypeError
  | Some min_idx =>
      let anchor := item points min_idx in
      '(sorted_pts, _) <~ quicksort (length points) anchor self_points g ;;
      l <~ load sorted_pts ;;
      match index anchor l with
      | None => raise ValueError
      | Some i =>
          store sorted_pts (del i l) ;;;
          l <~ load sorted_pts ;;
          match l with
          | [] => raise IndexError
          | s0 :: rest => new (rev (GrahamScan.scan [s0; anchor] rest))
          end
      end
  end.

Fixpoint march (budget : nat) (self_points hull : ref) (pivot : Point)
  : prog ref :=
  match budget with
  | O => unfinished
  | S budget' =>
      hv <~ load hull ;;
      store hull (hv ++ [pivot]) ;;;
      points <~ load self_points ;;
      let endpoint := JarvisMarch.next_endpoint points pivot in
      hv <~ load hull ;;
      if point_eqb endpoint (item hv 0) then ret hull
      else march budget' self_points hull endpoint
  end.

Definition jarvis_march_convex_hull (budget : nat) (self_points : ref)
  : prog ref :=
  points <~ load self_points ;;
  if (length points <? 3)%nat then raise ValueError
  else
    hull <~ new [] ;;
    march budget self_points hull (JarvisMarch.min_by_key points).

(** [list_of_hull] is the list of the enclosing call that both helpers
    append to; [points] is the list they are given and remove from. *)
Fixpoint quick_hull_left (budget : nat) (list_of_hull points : ref)
         (min_absis max_absis : Point) : prog unit :=
  pv <~ load points ;;
  match pv with
  | [] => ret tt
  | _ :: _ =>
      match budget with
      | O => unfinished
      | S budget' =>
          let max_point := QuickHull.find_max_distance pv min_absis max_absis in
          store points (remove max_point pv) ;;;
          hv <~ load list_of_hull ;;
          store list_of_hull (hv ++ [max_point]) ;;;
          pv <~ load points ;;
          first_side <~ new (fst (QuickHull.divide_side pv min_absis max_point)) ;;
          _ <~ new (snd (QuickHull.divide_side pv min_absis max_point)) ;;
          pv <~ load points ;;
          second_side <~ new (fst (QuickHull.divide_side pv max_point max_absis)) ;;
          _ <~ new (snd (QuickHull.divide_side pv max_point max_absis)) ;;
          quick_hull_left budget' list_of_hull first_side min_absis max_point ;;;
          quick_hull_left budget' list_of_hull second_side max_point max_absis
      end
  end.

Fixpoint quick_hull_right (budget : nat) (list_of_hull points : ref)
         (min_absis max_absis : Point) : prog unit :=
  pv <~ load points ;;
  match pv with
  | [] => ret tt
  | _ :: _ =>
      match budget with
      | O => unfinished
      | S budget' =>
          let max_point := QuickHull.find_max_distance pv min_absis max_absis in
          store points (remove max_point pv) ;;;
          hv <~ load list_of_hull ;;
          store list_of_hull (hv ++ [max_point]) ;;;
          pv <~ load points ;;
          _ <~ new (fst (QuickHull.divide_side pv min_absis max_point)) ;;
          first_side <~ new (snd (QuickHull.divide_side pv min_absis max_point)) ;;
          pv <~ load points ;;
          _ <~ new (fst (QuickHull.divide_side pv max_point max_absis)) ;;
          second_side <~ new (snd (QuickHull.divide_side pv max_point max_absis)) ;;
          quick_hull_right budget' list_of_hull first_side min_absis max_point ;;;
          quick_hull_right budget' list_of_hull second_side max_point max_absis
      end
  end.

(** What [quickhull] hands back: the list it was given, or new edges. *)
Inductive quickhull_value : Type :=
| SameList (r : ref)
| NewEdges (l : list (Point * Point)).

Definition quickhull (self_points : ref) : prog quickhull_value :=
  let points := self_points in
  pv <~ load points ;;
  if (length pv <=? 1)%nat then ret (SameList points)
  else
    let '(min_absis, max_absis) := QuickHull.find_min_and_max pv in
    left_hull <~ new (fst (QuickHull.divide_side pv min_absis max_absis)) ;;
    right_hull <~ new (snd (QuickHull.divide_side pv min_absis max_absis)) ;;
    list_of_hull <~ new [min_absis; max_absis] ;;
    lv <~ load left_hull ;;
    quick_hull_left (length lv) list_of_hull left_hull min_absis max_absis ;;;
    rv <~ load right_hull ;;
    quick_hull_right (length rv) list_of_hull right_hull min_absis max_absis ;;;
    hv <~ load list_of_hull ;;
    store list_of_hull (QuickHull.sort_around_centre hv) ;;;
    hv <~ load list_of_hull ;;
    ret (NewEdges (QuickHull.edges hv)).

Definition observed_quickhull (o : run quickhull_value) : outcome hull_shape :=
  match o with
  | Done (SameList r) h => Return (Vertices (cell h r))
  | Done (NewEdges l) _ => Return (Edges l)
  | Failed e _ => Raise e
  | Unfinished => Timeout
  end.

Fixpoint wrap (budget : nat) (points : ref) (l p : nat) (hull : ref)
  : prog ref :=
  match budget with
  | O => unfinished
  | S budget' =>
      pv <~ load points ;;
      hv <~ load hull ;;
      store hull (hv ++ [item pv p]) ;;;
      pv <~ load points ;;
      let p := BruteForce.next_vertex pv p in
      if (p =? l)%nat then ret hull
      else wrap budget' points l p hull
  end.

Definition brute_force (budget : nat) (self_points : ref) : prog ref :=
  let points := self_points in
  pv <~ load points ;;
  if (length pv <? 3)%nat then new []
  else
    hull <~ new [] ;;
    let l := BruteForce.leftmost pv in
    wrap budget points l l hull.

Definition andrews_monotone_chain (self_points : ref) : prog ref :=
  let points := self_points in
  pv <~ load points ;;
  if (length pv <? 3)%nat then raise ValueError
  else
    points <~ new (sorted MonotoneChain.tuple_ltb pv) ;;
    pv <~ load points ;;
    lower_hull <~ new (MonotoneChain.build pv) ;;
    pv <~ load points ;;
    upper_hull <~ new (MonotoneChain.build (rev pv)) ;;
    lv <~ load lower_hull ;;
    l1 <~ new (removelast lv) ;;
    uv <~ load upper_hull ;;
    u1 <~ new (removelast uv) ;;
    l1v <~ load l1 ;;
    u1v <~ load u1 ;;
    new (l1v ++ u1v).

(** A heap whose only object is [self.points]. *)
Definition app_heap (points : list Point) : heap :=
  mkHeap (fun r => if (r =? 0)%nat then points else []) 1%nat.

(** [self.points] is left as it was by a run that started in [h]. *)
Definition input_unchanged {A : Type} (self_points : ref) (h : heap)
           (o : run A) : Prop :=
  match final_heap o with
  | Some h' => cell h' self_points = cell h self_points
  | None => True
  end.

End Convex_Hull_Objects.

(** * Properties *)

(** ** Segment intersection *)

Module Line_Intersection_Facts.
Import Line_Intersection.

Lemma intervals_overlap_iff (a1 a2 b1 b2 : Z) :
  intervals_overlap a1 a2 b1 b2 <->
  ~ (Z.max a1 a2 < Z.min b1 b2) /\ ~ (Z.min a1 a2 > Z.max b1 b2).
Proof. unfold intervals_overlap. lia. Qed.

Lemma reject_false_iff (a1 a2 b1 b2 : Z) :
  (Z.max a1 a2 <? Z.min b1 b2) || (Z.min a1 a2 >? Z.max b1 b2) = false
  <-> intervals_overlap a1 a2 b1 b2.
Proof.
  rewrite intervals_overlap_iff, orb_false_iff, Z.ltb_ge, Z.gtb_ltb, Z.ltb_ge.
  lia.
Qed.

(** C5.  [line_sweep] answers [true] exactly when the bounding boxes
    overlap on both axes and both products of determinants are strictly
    negative.  On the segments (0,0)-(5,5) and (5,5)-(10,0), which share
    only the end point (5,5), it answers [false] while [do_intersect_ccw]
    and [vecotr_cross_product] answer [true]. *)
Theorem line_sweep_strict_crossing :
  (forall p1 p2 p3 p4 : Point,
      line_sweep p1 p2 p3 p4 = true <->
      bounding_boxes_overlap p1 p2 p3 p4
      /\ calculate_determinant p1 p3 p4 * calculate_determinant p2 p3 p4 < 0
      /\ calculate_determinant p3 p1 p2 * calculate_determinant p4 p1 p2 < 0)
  /\ line_sweep (0, 0) (5, 5) (5, 5) (10, 0) = false
  /\ do_intersect_ccw (0, 0) (5, 5) (5, 5) (10, 0) = true
  /\ vecotr_cross_product (0, 0) (5, 5) (5, 5) (10, 0) = true.
Proof.
  split; [| repeat split; reflexivity].
  intros p1 p2 p3 p4. unfold line_sweep, intersect, bounding_boxes_overlap.
  destruct (_ || _) eqn:Ex.
  - split; [discriminate |]. intros [[Hx _] _].
    apply reject_false_iff in Hx. congruence.
  - apply reject_false_iff in Ex.
    destruct (_ || _) eqn:Ey.
    + split; [discriminate |]. intros [[_ Hy] _].
      apply reject_false_iff in Hy. congruence.
    + apply reject_false_iff in Ey.
      destruct (_ && _) eqn:Ed.
      * apply andb_true_iff in Ed. rewrite !Z.ltb_lt in Ed. tauto.
      * split; [discriminate |]. intros [_ Hd].
        rewrite <- !Z.ltb_lt, <- andb_true_iff in Hd. congruence.
Qed.

Lemma x_containment_iff (a1 a2 b1 b2 : Z) :
  ((Z.min a1 a2 <=? b1) && (b1 <=? Z.max a1 a2))
  || ((Z.min a1 a2 <=? b2) && (b2 <=? Z.max a1 a2))
  || ((Z.min b1 b2 <=? a1) && (a1 <=? Z.max b1 b2))
  || ((Z.min b1 b2 <=? a2) && (a2 <=? Z.max b1 b2)) = true
  <-> intervals_overlap a1 a2 b1 b2.
Proof.
  rewrite !orb_true_iff, !andb_true_iff, !Z.leb_le.
  unfold intervals_overlap. lia.
Qed.

(** C6.  [do_intersect_ccw] answers [true] when the orientations of
    (A,B,C) and (A,B,D) differ and those of (C,D,A) and (C,D,B) differ.
    When the four triples are all collinear its answer is the overlap of
    the two x-intervals and nothing else: two disjoint segments on one
    vertical line are reported as intersecting. *)
Theorem ccw_general_and_collinear (A B C D : Point) :
  (ccw A B C <> ccw A B D -> ccw C D A <> ccw C D B ->
   do_intersect_ccw A B C D = true)
  /\ (ccw A B C = 0 -> ccw A B D = 0 -> ccw C D A = 0 -> ccw C D B = 0 ->
      (do_intersect_ccw A B C D = true <->
       intervals_overlap (px A) (px B) (px C) (px D)))
  /\ do_intersect_ccw (0, 0) (0, 1) (0, 5) (0, 6) = true.
Proof.
  split; [| split; [| reflexivity]].
  - intros H12 H34. unfold do_intersect_ccw.
    apply Z.eqb_neq in H12, H34. now rewrite H12, H34.
  - intros H1 H2 H3 H4. unfold do_intersect_ccw.
    rewrite H1, H2, H3, H4. cbn [Z.eqb negb andb].
    rewrite <- x_containment_iff.
    destruct (_ || _); intuition congruence.
Qed.

Lemma ccw_general_and_collinear_witness :
  do_intersect_ccw (0, 0) (10, 10) (0, 10) (10, 0) = true
  /\ (do_intersect_ccw (0, 0) (5, 0) (10, 0) (15, 0) = true <->
      intervals_overlap 0 5 10 15).
Proof.
  split.
  - apply (proj1 (ccw_general_and_collinear (0, 0) (10, 10) (0, 10) (10, 0)));
      vm_compute; discriminate.
  - apply (proj1 (proj2 (ccw_general_and_collinear (0, 0) (5, 0) (10, 0) (15, 0))));
      reflexivity.
Defined.

End Line_Intersection_Facts.

(** ** Convex hulls *)

Module Py_Facts.
Import Py.

Lemma point_eqb_eq (p q : Point) : point_eqb p q = true <-> p = q.
Proof.
  unfold point_eqb, px, py. destruct p, q; cbn.
  rewrite andb_true_iff, !Z.eqb_eq. split; [intros []|intros [=]]; subst; auto.
Qed.

Lemma point_eqb_refl (p : Point) : point_eqb p p = true.
Proof. now apply point_eqb_eq. Qed.

Lemma point_eqb_neq (p q : Point) : point_eqb p q = false <-> p <> q.
Proof.
  rewrite <- point_eqb_eq. destruct (point_eqb p q); intuition congruence.
Qed.

(** *** The order of angles *)

Lemma angle_compare_refl (a : angle) : angle_compare a a = Eq.
Proof.
  unfold angle_compare. rewrite Z.compare_refl.
  apply Qeq_alt. reflexivity.
Qed.

Lemma angle_compare_antisym (a b : angle) :
  angle_compare b a = CompOpp (angle_compare a b).
Proof.
  unfold angle_compare. rewrite (Z.compare_antisym (sector a) (sector b)).
  destruct (sector a ?= sector b); cbn; auto.
  symmetry. apply Qcompare_antisym.
Qed.

Lemma angle_compare_eq_l (a b c : angle) :
  angle_compare a b = Eq -> angle_compare a c = angle_compare b c.
Proof.
  unfold angle_compare.
  destruct (sector a ?= sector b) eqn:E; try discriminate.
  apply Z.compare_eq in E. rewrite E. intros H%Qeq_alt.
  destruct (sector b ?= sector c); auto.
  now rewrite H.
Qed.

Lemma angle_compare_trans (a b c : angle) :
  angle_compare a b = Lt -> angle_compare b c = Lt -> angle_compare a c = Lt.
Proof.
  unfold angle_compare.
  destruct (Z.compare_spec (sector a) (sector b)) as [E1|E1|E1];
    try discriminate;
    destruct (Z.compare_spec (sector b) (sector c)) as [E2|E2|E2];
    try discriminate; intros H1 H2.
  - rewrite E1, E2, Z.compare_refl.
    apply Qlt_alt in H1, H2. apply Qlt_alt. eapply Qlt_trans; eauto.
  - rewrite E1. now apply Z.compare_lt_iff in E2 as ->.
  - rewrite <- E2. now apply Z.compare_lt_iff in E1 as ->.
  - assert (sector a < sector c)%Z as ->%Z.compare_lt_iff by lia. auto.
Qed.

Lemma item_In_lt (l : list Point) (i : nat) :
  (i < length l)%nat -> In (item l i) l.
Proof. apply nth_In. Qed.

(** *** [index], [del] and [remove] *)

Lemma index_In (x : Point) (l : list Point) :
  In x l -> exists i, index x l = Some i /\ (i < length l)%nat.
Proof.
  induction l as [|y l IH]; cbn; [tauto|]. intros H.
  destruct (point_eqb y x) eqn:E.
  - exists O. split; auto. lia.
  - destruct H as [->|H]; [now rewrite point_eqb_refl in E|].
    destruct (IH H) as (i & -> & Hi). exists (S i). cbn. split; auto. lia.
Qed.

Lemma index_del_perm (x : Point) (l : list Point) (i : nat) :
  index x l = Some i -> Permutation (x :: del i l) l.
Proof.
  revert i. induction l as [|y l IH]; cbn; [discriminate|]. intros i.
  destruct (point_eqb y x) eqn:E.
  - intros [= <-]. apply point_eqb_eq in E as ->. reflexivity.
  - destruct (index x l) as [j|]; cbn; [|discriminate].
    intros [= <-]. cbn. rewrite perm_swap. constructor. now apply IH.
Qed.

Lemma del_In (y : Point) (i : nat) (l : list Point) :
  In y (del i l) -> In y l.
Proof.
  revert i. induction l as [|z l IH]; intros [|i]; cbn; try tauto.
  intros [->|H]; eauto.
Qed.

Lemma remove_In (y x : Point) (l : list Point) :
  In y (remove x l) -> In y l.
Proof.
  induction l as [|z l IH]; cbn; [tauto|].
  destruct (point_eqb z x); cbn; tauto.
Qed.

Lemma remove_length (x : Point) (l : list Point) :
  In x l -> S (length (remove x l)) = length l.
Proof.
  induction l as [|z l IH]; cbn; [tauto|]. intros H.
  destruct (point_eqb z x) eqn:E; auto.
  destruct H as [->|H]; [now rewrite point_eqb_refl in E|].
  cbn. now rewrite IH.
Qed.

Lemma sector_left (a : angle) : (opp a < 0)%Q -> sector a = 0.
Proof.
  intros H. unfold sector.
  destruct (Qcompare_spec (opp a) 0); auto; lra.
Qed.

Lemma sector_right (a : angle) : (0 < opp a)%Q -> sector a = 2.
Proof.
  intros H. unfold sector.
  destruct (Qcompare_spec (opp a) 0); auto; lra.
Qed.

(** *** The stable sort *)

Section Sorted_Facts.
Context {A : Type} (ltb : A -> A -> bool).

Lemma insert_perm (x : A) (l : list A) :
  Permutation (insert ltb x l) (x :: l).
Proof.
  induction l as [|y l IH]; cbn; auto.
  destruct (ltb y x); auto.
  rewrite IH. apply perm_swap.
Qed.

Lemma sorted_perm (l : list A) : Permutation (sorted ltb l) l.
Proof.
  induction l as [|x l IH]; cbn; auto.
  rewrite insert_perm. auto.
Qed.

Lemma sorted_In (l : list A) (x : A) : In x (sorted ltb l) <-> In x l.
Proof.
  split; apply Permutation_in; [| symmetry]; apply sorted_perm.
Qed.

Lemma sorted_length (l : list A) : length (sorted ltb l) = length l.
Proof. apply Permutation_length, sorted_perm. Qed.

(** Nothing behind is smaller: the element stays in the front part. *)
Lemma insert_app_l (x : A) (l1 l2 : list A) :
  (forall y, In y l2 -> ltb y x = false) ->
  insert ltb x (l1 ++ l2) = insert ltb x l1 ++ l2.
Proof.
  intros H. induction l1 as [|y l1 IH]; cbn.
  - destruct l2 as [|y l2]; cbn; auto.
    now rewrite (H y (or_introl eq_refl)).
  - destruct (ltb y x); cbn; congruence.
Qed.

(** Everything in front is smaller: the element goes behind it. *)
Lemma insert_app_r (x : A) (l1 l2 : list A) :
  (forall y, In y l1 -> ltb y x = true) ->
  insert ltb x (l1 ++ l2) = l1 ++ insert ltb x l2.
Proof.
  induction l1 as [|y l1 IH]; cbn; intros H; auto.
  rewrite (H y (or_introl eq_refl)), IH; auto.
Qed.
End Sorted_Facts.

(** The result is in order when the comparison is that of a total
    preorder. *)
Section Sorted_Order.
Context {A : Type} (ltb : A -> A -> bool).

Definition not_after (x y : A) : Prop := ltb y x = false.

Hypothesis ltb_asym : forall x y, ltb x y = true -> ltb y x = false.
Hypothesis not_after_trans :
  forall x y z, not_after x y -> not_after y z -> not_after x z.

Lemma insert_sorted (x : A) (l : list A) :
  StronglySorted not_after l -> StronglySorted not_after (insert ltb x l).
Proof.
  induction 1 as [|y l Hl IH Hy]; cbn.
  - repeat constructor.
  - destruct (ltb y x) eqn:E.
    + constructor; auto.
      apply Forall_forall. intros z Hz.
      apply (Permutation_in _ (insert_perm ltb x l)) in Hz as [<-|Hz].
      * now apply ltb_asym.
      * rewrite Forall_forall in Hy. auto.
    + constructor; [now constructor|].
      constructor; auto.
      eapply Forall_impl; [|exact Hy]. intros z Hz.
      now apply not_after_trans with y.
Qed.

Lemma sorted_sorted (l : list A) : StronglySorted not_after (sorted ltb l).
Proof.
  induction l as [|x l IH]; cbn; [constructor | now apply insert_sorted].
Qed.
End Sorted_Order.

Lemma angle_ltb_asym (a b : angle) : angle_ltb a b = true -> angle_ltb b a = false.
Proof.
  unfold angle_ltb. rewrite (angle_compare_antisym a b).
  now destruct (angle_compare a b).
Qed.

Lemma angle_not_after_trans (a b c : angle) :
  angle_ltb b a = false -> angle_ltb c b = false -> angle_ltb c a = false.
Proof.
  unfold angle_ltb. intros Hba Hcb.
  destruct (angle_compare c a) eqn:Hca; auto. exfalso.
  assert (Hac : angle_compare a c = Gt)
    by (rewrite (angle_compare_antisym c a), Hca; reflexivity).
  destruct (angle_compare b a) eqn:E; try discriminate.
  - pose proof (angle_compare_eq_l _ _ c E) as H. rewrite Hac in H.
    rewrite (angle_compare_antisym b c), H in Hcb. discriminate.
  - assert (angle_compare a b = Lt)
      by (rewrite (angle_compare_antisym b a), E; reflexivity).
    rewrite (angle_compare_trans c a b) in Hcb; auto. discriminate.
Qed.

Lemma insert_ext_in {A : Type} (f g : A -> A -> bool) (x : A) (l : list A) :
  (forall y, In y l -> f y x = g y x) -> insert f x l = insert g x l.
Proof.
  induction l as [|y l IH]; cbn; intros H; auto.
  rewrite (H y (or_introl eq_refl)), IH; auto.
Qed.

(** Two comparisons that agree on the elements of a list sort it alike. *)
Lemma sorted_ext_in {A : Type} (f g : A -> A -> bool) (l : list A) :
  (forall x y, In x l -> In y l -> f x y = g x y) ->
  sorted f l = sorted g l.
Proof.
  induction l as [|x l IH]; cbn; intros H; auto.
  rewrite IH by auto.
  apply insert_ext_in. intros y Hy%sorted_In. auto.
Qed.

(** *** Sorting by a key and, inside a class of equal keys, by a second
    comparison: splitting at any pivot key *)

Section Three_Way.
Context {A K : Type} (key : A -> K) (cmp : K -> K -> comparison)
        (ltb2 : A -> A -> bool).
Hypothesis cmp_antisym : forall a b, cmp b a = CompOpp (cmp a b).
Hypothesis cmp_eq_l : forall a b c, cmp a b = Eq -> cmp a c = cmp b c.
Hypothesis cmp_trans :
  forall a b c, cmp a b = Lt -> cmp b c = Lt -> cmp a c = Lt.

Definition lex_ltb (x y : A) : bool :=
  match cmp (key x) (key y) with
  | Lt => true
  | Eq => ltb2 x y
  | Gt => false
  end.

Definition below (piv : K) (x : A) : bool :=
  match cmp (key x) piv with Lt => true | _ => false end.
Definition level (piv : K) (x : A) : bool :=
  match cmp (key x) piv with Eq => true | _ => false end.
Definition above (piv : K) (x : A) : bool :=
  match cmp (key x) piv with Gt => true | _ => false end.

Lemma below_level (piv : K) (x y : A) :
  below piv x = true -> level piv y = true -> cmp (key x) (key y) = Lt.
Proof.
  unfold below, level.
  destruct (cmp (key x) piv) eqn:Ex; try discriminate.
  destruct (cmp (key y) piv) eqn:Ey; try discriminate. intros _ _.
  pose proof (cmp_eq_l _ _ (key x) Ey) as H.
  rewrite (cmp_antisym (key x) piv), Ex in H. cbn in H.
  rewrite (cmp_antisym (key y) (key x)), H. reflexivity.
Qed.

Lemma below_above (piv : K) (x y : A) :
  below piv x = true -> above piv y = true -> cmp (key x) (key y) = Lt.
Proof.
  unfold below, above.
  destruct (cmp (key x) piv) eqn:Ex; try discriminate.
  destruct (cmp (key y) piv) eqn:Ey; try discriminate. intros _ _.
  apply cmp_trans with piv; auto.
  rewrite (cmp_antisym (key y) piv), Ey. reflexivity.
Qed.

Lemma level_above (piv : K) (x y : A) :
  level piv x = true -> above piv y = true -> cmp (key x) (key y) = Lt.
Proof.
  unfold level, above.
  destruct (cmp (key x) piv) eqn:Ex; try discriminate.
  destruct (cmp (key y) piv) eqn:Ey; try discriminate. intros _ _.
  rewrite (cmp_eq_l _ _ (key y) Ex).
  rewrite (cmp_antisym (key y) piv), Ey. reflexivity.
Qed.

Lemma level_level (piv : K) (x y : A) :
  level piv x = true -> level piv y = true -> cmp (key x) (key y) = Eq.
Proof.
  unfold level.
  destruct (cmp (key x) piv) eqn:Ex; try discriminate.
  destruct (cmp (key y) piv) eqn:Ey; try discriminate. intros _ _.
  rewrite (cmp_eq_l _ _ (key y) Ex).
  rewrite (cmp_antisym (key y) piv), Ey. reflexivity.
Qed.

Lemma lex_ltb_lt (x y : A) : cmp (key x) (key y) = Lt -> lex_ltb x y = true.
Proof. unfold lex_ltb. now intros ->. Qed.

Lemma lex_ltb_gt (x y : A) : cmp (key x) (key y) = Lt -> lex_ltb y x = false.
Proof. unfold lex_ltb. rewrite (cmp_antisym (key x) (key y)). now intros ->. Qed.

Lemma sorted_three_way (piv : K) (l : list A) :
  sorted lex_ltb l =
  sorted lex_ltb (filter (below piv) l)
  ++ sorted lex_ltb (filter (level piv) l)
  ++ sorted lex_ltb (filter (above piv) l).
Proof.
  induction l as [|x l IH]; auto.
  cbn [sorted filter]. rewrite IH. clear IH.
  assert (HS : forall y, In y (sorted lex_ltb (filter (below piv) l)) ->
                         below piv y = true)
    by (intros y Hy%sorted_In%filter_In; tauto).
  assert (HE : forall y, In y (sorted lex_ltb (filter (level piv) l)) ->
                         level piv y = true)
    by (intros y Hy%sorted_In%filter_In; tauto).
  assert (HL : forall y, In y (sorted lex_ltb (filter (above piv) l)) ->
                         above piv y = true)
    by (intros y Hy%sorted_In%filter_In; tauto).
  assert (Hb : below piv x = match cmp (key x) piv with Lt => true | _ => false end)
    by reflexivity.
  assert (Hl : level piv x = match cmp (key x) piv with Eq => true | _ => false end)
    by reflexivity.
  assert (Ha : above piv x = match cmp (key x) piv with Gt => true | _ => false end)
    by reflexivity.
  destruct (cmp (key x) piv) eqn:Ex; rewrite Hb, Hl, Ha; cbn [sorted].
  - rewrite insert_app_r, insert_app_l; auto.
    + intros y Hy. eauto using lex_ltb_gt, level_above.
    + intros y Hy. eauto using lex_ltb_lt, below_level.
  - rewrite insert_app_l; auto.
    intros y [Hy|Hy]%in_app_or; eauto using lex_ltb_gt, below_level, below_above.
  - rewrite insert_app_r, insert_app_r; auto.
    + intros y Hy. eauto using lex_ltb_lt, level_above.
    + intros y Hy. eauto using lex_ltb_lt, below_above.
Qed.

(** Inside a class of equal keys only the second comparison counts. *)
Lemma sorted_level (piv : K) (l : list A) :
  sorted lex_ltb (filter (level piv) l) = sorted ltb2 (filter (level piv) l).
Proof.
  apply sorted_ext_in. intros x y [_ Hx]%filter_In [_ Hy]%filter_In.
  unfold lex_ltb. now rewrite (level_level piv x y).
Qed.

End Three_Way.

End Py_Facts.

(** *** Graham scan: the randomised sort *)

Module Graham_Facts.
Import Py Py_Facts Convex_Hull GrahamScan.

(** The order the sort realises: by polar angle around the anchor, and by
    squared distance to it among points of one angle. *)
Definition by_angle (anchor : Point) : Point -> Point -> bool :=
  lex_ltb (fun p => polar_angle p anchor) angle_compare
          (fun p q => distance p anchor <? distance q anchor).

Lemma smaller_of_below (anchor : Point) (piv : angle) (a : list Point) :
  smaller_of anchor piv a
  = filter (below (fun p => polar_angle p anchor) angle_compare piv) a.
Proof. reflexivity. Qed.

Lemma equal_of_level (anchor : Point) (piv : angle) (a : list Point) :
  equal_of anchor piv a
  = filter (level (fun p => polar_angle p anchor) angle_compare piv) a.
Proof.
  apply filter_ext. intros p. unfold angle_ltb, angle_eqb, level.
  now destruct (angle_compare _ _).
Qed.

Lemma larger_of_above (anchor : Point) (piv : angle) (a : list Point) :
  larger_of anchor piv a
  = filter (above (fun p => polar_angle p anchor) angle_compare piv) a.
Proof.
  apply filter_ext. intros p. unfold angle_ltb, angle_eqb, above.
  now destruct (angle_compare _ _).
Qed.

Lemma filter_shorter {A : Type} (f : A -> bool) (x : A) (l : list A) :
  In x l -> f x = false -> (length (filter f l) < length l)%nat.
Proof.
  induction l as [|y l IH]; cbn; [tauto|].
  intros [->|Hx] Hf.
  - rewrite Hf. pose proof (filter_length_le f l). lia.
  - specialize (IH Hx Hf). destruct (f y); cbn; lia.
Qed.

Lemma item_In (l : list Point) (i : nat) :
  (i < length l)%nat -> In (item l i) l.
Proof. apply nth_In. Qed.

Lemma sorted_short {A : Type} (f : A -> A -> bool) (l : list A) :
  (length l <= 1)%nat -> sorted f l = l.
Proof. destruct l as [|x [|y l]]; cbn; auto; lia. Qed.

(** With a budget of at least the length of the list, [quicksort] returns,
    and what it returns is the list in the order [by_angle], whatever the
    pivots drawn. *)
Lemma quicksort_sorted (budget : nat) (anchor : Point) :
  forall (a : list Point) (g : rng),
    (length a <= budget)%nat ->
    exists g', quicksort budget anchor a g
               = Return (sorted (by_angle anchor) a, g').
Proof.
  induction budget as [|budget IH]; intros a g Hlen.
  - exists g. cbn. destruct a; [reflexivity | cbn in Hlen; lia].
  - cbn [quicksort]. destruct (Nat.leb_spec (length a) 1) as [H1|H1].
    + exists g. now rewrite sorted_short.
    + unfold randint. cbn [fst snd].
      set (k := (0 + g O mod (length a - 1 - 0 + 1))%nat).
      set (g1 := fun n => g (S n)).
      assert (Hk : (k < length a)%nat).
      { subst k. pose proof (Nat.mod_upper_bound (g O) (length a - 1 - 0 + 1)).
        lia. }
      set (piv := polar_angle (item a k) anchor).
      assert (Hpiv : angle_compare (polar_angle (item a k) anchor) piv = Eq)
        by apply angle_compare_refl.
      destruct (IH (smaller_of anchor piv a) g1) as [g2 E2].
      { enough (length (smaller_of anchor piv a) < length a)%nat by lia.
        apply filter_shorter with (item a k); [now apply item_In|].
        unfold angle_ltb. now rewrite Hpiv. }
      destruct (IH (larger_of anchor piv a) g2) as [g3 E3].
      { enough (length (larger_of anchor piv a) < length a)%nat by lia.
        apply filter_shorter with (item a k); [now apply item_In|].
        unfold angle_ltb, angle_eqb. now rewrite Hpiv. }
      exists g3. rewrite E2. cbn [bind]. rewrite E3. cbn [bind].
      do 2 f_equal.
      unfold by_angle.
      rewrite (sorted_three_way _ _ _ angle_compare_antisym angle_compare_eq_l
                                angle_compare_trans piv a).
      rewrite (sorted_level _ _ _ angle_compare_antisym angle_compare_eq_l piv a).
      now rewrite <- smaller_of_below, <- equal_of_level, <- larger_of_above.
Qed.

(** The lowest point is found as soon as there is a point. *)
Lemma fold_min_idx (points l : list Point) :
  forall (s : nat) (acc : option nat),
    (forall m, acc = Some m -> (m < s)%nat) ->
    l <> [] \/ acc <> None ->
    exists m, fold_left (min_idx_step points)
                        (combine (seq s (length l)) l) acc = Some m
              /\ (m < s + length l)%nat.
Proof.
  induction l as [|[x y] l IH]; intros s acc Hacc Hne.
  - destruct acc as [m|]; [|destruct Hne; congruence].
    exists m. cbn. split; auto. specialize (Hacc m eq_refl). lia.
  - cbn [length seq combine fold_left].
    destruct (IH (S s) (min_idx_step points acc (s, (x, y)))) as (m & Hm & Hlt).
    + intros m. unfold min_idx_step.
      destruct acc as [m0|]; [specialize (Hacc m0 eq_refl)|];
        repeat match goal with |- context [if ?c then _ else _] => destruct c end;
        intros [= <-]; lia.
    + right. unfold min_idx_step. discriminate.
    + exists m. split; auto. lia.
Qed.

Lemma find_min_idx_nil : find_min_idx [] = None.
Proof. reflexivity. Qed.

Lemma find_min_idx_Some (points : list Point) :
  points <> [] ->
  exists m, find_min_idx points = Some m /\ (m < length points)%nat.
Proof.
  intros H. destruct (fold_min_idx points points 0 None) as (m & Hm & Hlt).
  - discriminate.
  - now left.
  - exists m. split; auto.
Qed.

(** [graham_scan] without the generator: the sort replaced by the order it
    realises. *)
Definition graham_scan_sorted (points : list Point) : outcome (list Point) :=
  match find_min_idx points with
  | None => Raise TypeError
  | Some min_idx =>
      let anchor := item points min_idx in
      let sorted_pts := sorted (by_angle anchor) points in
      match index anchor sorted_pts with
      | None => Raise ValueError
      | Some i =>
          match del i sorted_pts with
          | [] => Raise IndexError
          | s0 :: rest => Return (rev (scan [s0; anchor] rest))
          end
      end
  end.

Lemma graham_scan_any_pivots (g : rng) (points : list Point) :
  graham_scan g points = graham_scan_sorted points.
Proof.
  unfold graham_scan, graham_scan_sorted.
  destruct (find_min_idx points) as [m|]; auto.
  destruct (quicksort_sorted (length points) (item points m) points g (le_n _))
    as [g' ->].
  reflexivity.
Qed.

(** Two points: the lower one (the left one of two on a level) first. *)
Lemma find_min_idx_two (p q : Point) :
  find_min_idx [p; q] = Some (if JarvisMarch.key_ltb q p then 1 else 0)%nat.
Proof.
  destruct p as [xp yp], q as [xq yq].
  unfold find_min_idx, JarvisMarch.key_ltb.
  cbn [length seq combine fold_left]. unfold min_idx_step.
  cbn [item nth px py fst snd].
  rewrite (Z.ltb_irrefl xp), andb_false_r. cbn [nth px py fst snd].
  destruct (yq <? yp) eqn:E; cbn [nth px py fst snd orb].
  - now rewrite Z.ltb_irrefl, andb_false_r.
  - now destruct (_ && _).
Qed.

Lemma graham_scan_two (g : rng) (p q : Point) :
  graham_scan g [p; q]
  = Return (if JarvisMarch.key_ltb q p then [q; p] else [p; q]).
Proof.
  rewrite graham_scan_any_pivots. unfold graham_scan_sorted.
  rewrite find_min_idx_two.
  destruct (JarvisMarch.key_ltb q p); cbn [item nth sorted insert];
    destruct (by_angle _ q p); cbn [index del];
    rewrite ?point_eqb_refl; cbn [option_map del];
    try reflexivity;
    destruct (point_eqb _ _) eqn:E; cbn [option_map del];
    try apply point_eqb_eq in E; subst; reflexivity.
Qed.

Lemma backtrack_incl (hull : list Point) (s : Point) :
  incl (backtrack hull s) hull.
Proof.
  induction hull as [|h1 hull IH]; cbn; [apply incl_refl|].
  destruct hull as [|h2 hull]; [apply incl_refl|].
  destruct (_ <=? 0); [|apply incl_refl].
  now apply incl_tl.
Qed.

Lemma scan_incl (rest hull : list Point) :
  incl (scan hull rest) (hull ++ rest).
Proof.
  revert hull. induction rest as [|s rest IH]; intros hull; cbn.
  - rewrite app_nil_r. apply incl_refl.
  - unfold scan in IH. intros p Hp%IH. apply in_app_iff.
    apply in_app_or in Hp as [[<-|Hp]|Hp]; cbn; auto.
    apply backtrack_incl in Hp. auto.
Qed.

(** What [graham_scan] does by the size of the input. *)
Lemma graham_scan_nil (g : rng) : graham_scan g [] = Raise TypeError.
Proof. reflexivity. Qed.

Lemma graham_scan_singleton (g : rng) (p : Point) :
  graham_scan g [p] = Raise IndexError.
Proof.
  rewrite graham_scan_any_pivots. unfold graham_scan_sorted.
  assert (E : find_min_idx [p] = Some O).
  { destruct p as [x y]. unfold find_min_idx. cbn.
    now destruct (_ && _). }
  rewrite E. cbn. now rewrite point_eqb_refl.
Qed.

Lemma graham_scan_returns (g : rng) (points : list Point) :
  (2 <= length points)%nat ->
  exists anchor s0 rest i,
    In anchor points
    /\ index anchor (sorted (by_angle anchor) points) = Some i
    /\ del i (sorted (by_angle anchor) points) = s0 :: rest
    /\ graham_scan g points = Return (rev (scan [s0; anchor] rest)).
Proof.
  intros Hlen. rewrite graham_scan_any_pivots. unfold graham_scan_sorted.
  destruct (find_min_idx_Some points) as (m & -> & Hm).
  { destruct points; cbn in Hlen; [lia | discriminate]. }
  cbn zeta. set (anchor := item points m).
  assert (Hin : In anchor points) by now apply item_In.
  destruct (index_In anchor (sorted (by_angle anchor) points)) as (i & Hi & Hlt);
    [now apply sorted_In|].
  rewrite Hi. pose proof (index_del_perm _ _ _ Hi) as Hperm.
  apply Permutation_length in Hperm. rewrite sorted_length in Hperm.
  destruct (del i _) as [|s0 rest] eqn:Hdel; [cbn in Hperm; lia|].
  exists anchor, s0, rest, i. auto.
Qed.

End Graham_Facts.

(** *** QuickHull: extremes, sides and the recursion *)

Module QuickHull_Facts.
Import Py Py_Facts Convex_Hull QuickHull.

Lemma find_min_and_max_fold (l : list Point) (P : Point -> Prop) :
  forall (acc : Point * Point),
    P (fst acc) -> P (snd acc) -> (forall p, In p l -> P p) ->
    P (fst (fold_left
              (fun '(minimum_point, maximum_point) point =>
                 (if px point <=? px minimum_point then point else minimum_point,
                  if px point >=? px maximum_point then point else maximum_point))
              l acc))
    /\ P (snd (fold_left
                 (fun '(minimum_point, maximum_point) point =>
                    (if px point <=? px minimum_point then point else minimum_point,
                     if px point >=? px maximum_point then point else maximum_point))
                 l acc)).
Proof.
  induction l as [|p l IH]; intros [mn mx] Hmn Hmx Hl; cbn [fold_left]; auto.
  apply IH; cbn [fst snd] in *.
  - destruct (_ <=? _); auto. apply Hl. now left.
  - destruct (_ >=? _); auto. apply Hl. now left.
  - intros q Hq. apply Hl. now right.
Qed.

Lemma find_min_and_max_In (points : list Point) :
  points <> [] ->
  In (fst (find_min_and_max points)) points
  /\ In (snd (find_min_and_max points)) points.
Proof.
  intros H. assert (H0 : In (item points 0) points).
  { destruct points; [congruence | now left]. }
  apply (find_min_and_max_fold points (fun p => In p points)); auto.
Qed.

Lemma divide_side_incl (points : list Point) (lo hi : Point) :
  incl (fst (divide_side points lo hi)) points
  /\ incl (snd (divide_side points lo hi)) points.
Proof. split; cbn; apply incl_filter. Qed.

Lemma divide_side_length (points : list Point) (lo hi : Point) :
  (length (fst (divide_side points lo hi)) <= length points)%nat
  /\ (length (snd (divide_side points lo hi)) <= length points)%nat.
Proof. split; cbn; apply filter_length_le. Qed.

Lemma find_max_distance_index (points : list Point) (lo hi : Point) (l : list nat) :
  forall (acc : Z * nat),
    (snd acc < length points)%nat ->
    (forall i, In i l -> (i < length points)%nat) ->
    (snd (fold_left
            (fun '(max_distance, index_of_max) i =>
               let curr_distance := calc_line_dist lo hi (item points i) in
               if curr_distance >? max_distance
               then (curr_distance, i)
               else (max_distance, index_of_max))
            l acc) < length points)%nat.
Proof.
  induction l as [|i l IH]; intros [d k] Hk Hl; cbn [fold_left]; auto.
  apply IH.
  - cbn zeta. destruct (_ >? _); cbn [snd] in *; auto. apply Hl. now left.
  - intros j Hj. apply Hl. now right.
Qed.

Lemma find_max_distance_In (points : list Point) (lo hi : Point) :
  points <> [] -> In (find_max_distance points lo hi) points.
Proof.
  intros H. unfold find_max_distance.
  pose proof (find_max_distance_index points lo hi (seq 0 (length points)) (0, O))
    as Hi.
  destruct (fold_left _ _ _) as [d k]. apply item_In_lt. cbn [snd] in Hi.
  apply Hi.
  - destruct points; [congruence | cbn; lia].
  - intros i Hin%in_seq. lia.
Qed.

Lemma quick_hull_left_step (budget : nat) (points : list Point) (lo hi : Point) :
  points <> [] ->
  quick_hull_left (S budget) points lo hi =
  (let max_point := find_max_distance points lo hi in
   let points := remove max_point points in
   h1 <- quick_hull_left budget (fst (divide_side points lo max_point))
           lo max_point ;;
   h2 <- quick_hull_left budget (fst (divide_side points max_point hi))
           max_point hi ;;
   Return (max_point :: h1 ++ h2)).
Proof. destruct points; [congruence | reflexivity]. Qed.

Lemma quick_hull_right_step (budget : nat) (points : list Point) (lo hi : Point) :
  points <> [] ->
  quick_hull_right (S budget) points lo hi =
  (let max_point := find_max_distance points lo hi in
   let points := remove max_point points in
   h1 <- quick_hull_right budget (snd (divide_side points lo max_point))
           lo max_point ;;
   h2 <- quick_hull_right budget (snd (divide_side points max_point hi))
           max_point hi ;;
   Return (max_point :: h1 ++ h2)).
Proof. destruct points; [congruence | reflexivity]. Qed.

(** The recursion ends within a budget of the number of points it is given,
    and promotes only points it is given. *)
Lemma quick_hull_left_returns (budget : nat) :
  forall (points : list Point) (lo hi : Point),
    (length points <= budget)%nat ->
    exists h, quick_hull_left budget points lo hi = Return h /\ incl h points.
Proof.
  induction budget as [|budget IH]; intros points lo hi Hlen.
  - destruct points; [|cbn in Hlen; lia]. exists []. split; auto. apply incl_refl.
  - destruct points as [|p ps]; [exists []; split; auto; apply incl_refl|].
    rewrite quick_hull_left_step by discriminate.
    assert (Hne : p :: ps <> []) by discriminate.
    revert Hne Hlen. generalize (p :: ps). intros points Hne Hlen. cbn zeta.
    set (max_point := find_max_distance points lo hi).
    assert (Hmax : In max_point points) by now apply find_max_distance_In.
    pose proof (remove_length _ _ Hmax) as Hrem.
    destruct (IH (fst (divide_side (remove max_point points) lo max_point))
                 lo max_point) as (h1 & E1 & I1).
    { pose proof (divide_side_length (remove max_point points) lo max_point). lia. }
    destruct (IH (fst (divide_side (remove max_point points) max_point hi))
                 max_point hi) as (h2 & E2 & I2).
    { pose proof (divide_side_length (remove max_point points) max_point hi). lia. }
    exists (max_point :: h1 ++ h2). rewrite E1. cbn [bind]. rewrite E2. cbn [bind].
    split; auto.
    intros q [<-|[Hq|Hq]%in_app_or]; auto.
    + apply I1, divide_side_incl in Hq. eapply remove_In; eauto.
    + apply I2, divide_side_incl in Hq. eapply remove_In; eauto.
Qed.

Lemma quick_hull_right_returns (budget : nat) :
  forall (points : list Point) (lo hi : Point),
    (length points <= budget)%nat ->
    exists h, quick_hull_right budget points lo hi = Return h /\ incl h points.
Proof.
  induction budget as [|budget IH]; intros points lo hi Hlen.
  - destruct points; [|cbn in Hlen; lia]. exists []. split; auto. apply incl_refl.
  - destruct points as [|p ps]; [exists []; split; auto; apply incl_refl|].
    rewrite quick_hull_right_step by discriminate.
    assert (Hne : p :: ps <> []) by discriminate.
    revert Hne Hlen. generalize (p :: ps). intros points Hne Hlen. cbn zeta.
    set (max_point := find_max_distance points lo hi).
    assert (Hmax : In max_point points) by now apply find_max_distance_In.
    pose proof (remove_length _ _ Hmax) as Hrem.
    destruct (IH (snd (divide_side (remove max_point points) lo max_point))
                 lo max_point) as (h1 & E1 & I1).
    { pose proof (divide_side_length (remove max_point points) lo max_point). lia. }
    destruct (IH (snd (divide_side (remove max_point points) max_point hi))
                 max_point hi) as (h2 & E2 & I2).
    { pose proof (divide_side_length (remove max_point points) max_point hi). lia. }
    exists (max_point :: h1 ++ h2). rewrite E1. cbn [bind]. rewrite E2. cbn [bind].
    split; auto.
    intros q [<-|[Hq|Hq]%in_app_or]; auto.
    + apply I1, divide_side_incl in Hq. eapply remove_In; eauto.
    + apply I2, divide_side_incl in Hq. eapply remove_In; eauto.
Qed.

(** *** QuickHull: the boundary order and the edge list *)

Lemma edges_length (l : list Point) : length (edges l) = length l.
Proof. unfold edges. now rewrite length_map, length_seq. Qed.

Lemma edges_nth (l : list Point) (i : nat) (d : Point * Point) :
  (i < length l)%nat ->
  nth i (edges l) d =
  if (i =? length l - 1)%nat then (item l i, item l 0)
  else (item l i, item l (i + 1)).
Proof.
  intros Hi.
  set (f := fun i => if (i =? length l - 1)%nat
                     then (item l i, item l 0)
                     else (item l i, item l (i + 1))).
  change (edges l) with (map f (seq 0 (length l))).
  rewrite (nth_indep _ d (f O)) by now rewrite length_map, length_seq.
  rewrite (map_nth f), seq_nth by assumption. reflexivity.
Qed.

(** One point is not after another in the boundary order of a hull list:
    its angle around the centre of the list is not the greater one. *)
Definition around_centre (list_of_hull : list Point) : Point -> Point -> Prop :=
  let central_x := (inject_Z (sum (map px list_of_hull))
                    / inject_Z (Z.of_nat (length list_of_hull)))%Q in
  let central_y := (inject_Z (sum (map py list_of_hull))
                    / inject_Z (Z.of_nat (length list_of_hull)))%Q in
  not_after (fun p q => angle_ltb (centre_key central_x central_y p)
                                  (centre_key central_x central_y q)).

Lemma sort_around_centre_perm (l : list Point) :
  Permutation (sort_around_centre l) l.
Proof. apply sorted_perm. Qed.

Lemma sort_around_centre_sorted (l : list Point) :
  StronglySorted (around_centre l) (sort_around_centre l).
Proof.
  apply sorted_sorted.
  - intros x y. apply angle_ltb_asym.
  - intros x y z. unfold not_after. apply angle_not_after_trans.
Qed.

Lemma quickhull_short (points : list Point) :
  (length points <= 1)%nat -> quickhull points = Return (Vertices points).
Proof.
  intros H. unfold quickhull. now apply Nat.leb_le in H as ->.
Qed.

(** For two points or more [quickhull] returns the edges of the list it
    gathered: the two extremes, then what the left and the right recursion
    promoted. *)
Lemma quickhull_long (points : list Point) :
  (2 <= length points)%nat ->
  exists l r : list Point,
    let min_absis := fst (find_min_and_max points) in
    let max_absis := snd (find_min_and_max points) in
    let left_hull := fst (divide_side points min_absis max_absis) in
    let right_hull := snd (divide_side points min_absis max_absis) in
    quick_hull_left (length left_hull) left_hull min_absis max_absis = Return l
    /\ quick_hull_right (length right_hull) right_hull min_absis max_absis
       = Return r
    /\ incl l points /\ incl r points
    /\ quickhull points
       = Return (Edges (edges (sort_around_centre
                                 ([min_absis; max_absis] ++ l ++ r)))).
Proof.
  intros Hlen. unfold quickhull.
  destruct (Nat.leb_spec (length points) 1) as [H|_]; [lia|].
  destruct (find_min_and_max points) as [lo hi]. cbn [fst snd].
  destruct (divide_side points lo hi) as [lefts rights] eqn:Ed.
  pose proof (divide_side_incl points lo hi) as [Il Ir].
  rewrite Ed in Il, Ir. cbn [fst snd] in *.
  destruct (quick_hull_left_returns (length lefts) lefts lo hi (le_n _))
    as (l & El & Hl).
  destruct (quick_hull_right_returns (length rights) rights lo hi (le_n _))
    as (r & Er & Hr).
  exists l, r. rewrite El, Er. cbn [bind].
  repeat split; auto; eapply incl_tran; eauto.
Qed.

(** Two points with different abscissas: the edge there and back. *)
Lemma half_lt (a b : Z) : a < b ->
  (inject_Z a - inject_Z (sum [a; b]) / inject_Z (Z.of_nat 2) < 0)%Q
  /\ (0 < inject_Z b - inject_Z (sum [a; b]) / inject_Z (Z.of_nat 2))%Q.
Proof.
  intros H. cbn [sum fold_left]. rewrite Z.add_0_l, inject_Z_plus.
  rewrite Zlt_Qlt in H. change (inject_Z (Z.of_nat 2)) with 2%Q.
  assert (E : ((inject_Z a + inject_Z b) / 2 == (inject_Z a + inject_Z b) * (1 # 2))%Q)
    by field.
  rewrite E. split; lra.
Qed.

Lemma quickhull_two (p q : Point) : px p < px q ->
  quickhull [p; q] = Return (Edges [(p, q); (q, p)])
  /\ quickhull [q; p] = Return (Edges [(p, q); (q, p)]).
Proof.
  intros H. destruct (half_lt _ _ H) as [Hp Hq].
  assert (Hs : sort_around_centre [p; q] = [p; q]).
  { unfold sort_around_centre. cbn [sorted insert map length].
    unfold angle_ltb, angle_compare.
    rewrite (sector_left (centre_key _ _ p)), (sector_right (centre_key _ _ q));
      auto. }
  assert (Hpp : (px p <=? px p) = true) by (apply Z.leb_le; lia).
  assert (Hpp' : (px p >=? px p) = true) by (apply Z.geb_le; lia).
  assert (Hqq : (px q <=? px q) = true) by (apply Z.leb_le; lia).
  assert (Hqq' : (px q >=? px q) = true) by (apply Z.geb_le; lia).
  assert (Hqp : (px q <=? px p) = false) by (apply Z.leb_gt; lia).
  assert (Hqp' : (px q >=? px p) = true) by (apply Z.geb_le; lia).
  assert (Hpq : (px p <=? px q) = true) by (apply Z.leb_le; lia).
  assert (Hpq' : (px p >=? px q) = false) by (rewrite Z.geb_leb; apply Z.leb_gt; lia).
  assert (Ep : point_eqb p p = true) by apply point_eqb_refl.
  assert (Eq : point_eqb q q = true) by apply point_eqb_refl.
  unfold quickhull, find_min_and_max, divide_side, off_boundary.
  cbn [length Nat.leb fold_left item nth filter].
  rewrite Hpp, Hpp', Hqq, Hqq', Hqp, Hqp', Hpq, Hpq'.
  cbn [filter]. rewrite Ep, Eq. cbn [negb andb]. rewrite !andb_false_r.
  cbn [negb andb length quick_hull_left quick_hull_right bind app].
  rewrite Hs. split; reflexivity.
Qed.

(** C7.  For every input of at least two points of the canvas [quickhull]
    returns; what it returns is the list of hull vertices it gathered,
    sorted by angle around their centre, as a cycle of edges: edge [i]
    starts at vertex [i], the second point of an edge is the first point of
    the next edge, and the last edge leads from the last vertex back to the
    first.  The input is kept to the canvas because the order is that of
    the exact angles: the code sorts by floating-point keys, which order
    canvas points as their exact angles do but tie for distinct directions
    once coordinates are of the size of 2^52, and whose division overflows
    beyond the floating-point range. *)
Theorem quickhull_cyclic_edges (points : list Point) :
  Forall App.on_canvas points ->
  (2 <= length points)%nat ->
  exists l r : list Point,
    let min_absis := fst (find_min_and_max points) in
    let max_absis := snd (find_min_and_max points) in
    let left_hull := fst (divide_side points min_absis max_absis) in
    let right_hull := snd (divide_side points min_absis max_absis) in
    let list_of_hull := [min_absis; max_absis] ++ l ++ r in
    let vs := sort_around_centre list_of_hull in
    let es := edges vs in
    quick_hull_left (length left_hull) left_hull min_absis max_absis = Return l
    /\ quick_hull_right (length right_hull) right_hull min_absis max_absis
       = Return r
    /\ quickhull points = Return (Edges es)
    /\ Permutation vs list_of_hull
    /\ StronglySorted (around_centre list_of_hull) vs
    /\ length es = length vs
    /\ (forall i d, (i < length vs)%nat -> fst (nth i es d) = item vs i)
    /\ (forall i d, (S i < length vs)%nat ->
                    snd (nth i es d) = fst (nth (S i) es d))
    /\ (forall d, nth (length vs - 1) es d
                  = (item vs (length vs - 1), item vs 0)).
Proof.
  intros _ Hlen. destruct (quickhull_long points Hlen) as (l & r & H).
  exists l, r. cbn zeta in *. destruct H as (El & Er & _ & _ & Eq).
  set (vs := sort_around_centre _) in *.
  assert (Hvs : (2 <= length vs)%nat).
  { unfold vs. rewrite (Permutation_length (sort_around_centre_perm _)).
    cbn. lia. }
  repeat split; auto.
  - apply sort_around_centre_perm.
  - apply sort_around_centre_sorted.
  - apply edges_length.
  - intros i d Hi. rewrite edges_nth by assumption. now destruct (_ =? _)%nat.
  - intros i d Hi. rewrite !edges_nth by lia.
    destruct (Nat.eqb_spec i (length vs - 1)) as [E|_]; [lia|].
    replace (i + 1)%nat with (S i) by lia. now destruct (_ =? _)%nat.
  - intros d. rewrite edges_nth by lia. now rewrite Nat.eqb_refl.
Qed.

Lemma quickhull_cyclic_edges_witness :
  exists es, quickhull [(0, 0); (4, 0); (4, 4); (0, 4); (2, 2)] = Return (Edges es)
             /\ length es = 4%nat.
Proof.
  destruct (quickhull_cyclic_edges [(0, 0); (4, 0); (4, 4); (0, 4); (2, 2)])
    as (l & r & H);
    [repeat (constructor; [unfold App.on_canvas; cbn; lia|]); constructor
    |cbn; lia|].
  cbn zeta in H. destruct H as (El & Er & Eq & _ & _ & Hlen & _).
  eexists. split; [exact Eq|].
  vm_compute in El, Er. injection El as <-. injection Er as <-.
  reflexivity.
Defined.

End QuickHull_Facts.

(** *** Where hull vertices come from *)

Module Membership.
Import Py Py_Facts Convex_Hull.

Lemma fold_left_invariant {A B : Type} (f : A -> B -> A) (P : A -> Prop)
      (l : list B) :
  forall a, P a -> (forall a b, P a -> In b l -> P (f a b)) ->
            P (fold_left f l a).
Proof.
  induction l as [|b l IH]; cbn; intros a Ha Hf; auto.
Qed.

Lemma tl_In {A : Type} (x : A) (l : list A) : In x (tl l) -> In x l.
Proof. destruct l; cbn; auto. Qed.

Lemma item_0_In (l : list Point) : l <> [] -> In (item l 0) l.
Proof. destruct l; [congruence | now left]. Qed.

Lemma removelast_In {A : Type} (x : A) (l : list A) :
  In x (removelast l) -> In x l.
Proof.
  induction l as [|y l IH]; cbn; auto.
  destruct l; cbn in *; tauto.
Qed.

(** Jarvis march *)

Lemma min_by_key_In (points : list Point) :
  points <> [] -> In (JarvisMarch.min_by_key points) points.
Proof.
  intros H. unfold JarvisMarch.min_by_key.
  apply fold_left_invariant; [now apply item_0_In|].
  intros a b Ha Hb%tl_In. now destruct (JarvisMarch.key_ltb b a).
Qed.

Lemma next_endpoint_In (points : list Point) (pivot : Point) :
  points <> [] -> In (JarvisMarch.next_endpoint points pivot) points.
Proof.
  intros H. unfold JarvisMarch.next_endpoint.
  apply fold_left_invariant; [now apply item_0_In|].
  intros a b Ha Hb%tl_In. now destruct (_ || _).
Qed.

Lemma march_incl (budget : nat) (points : list Point) :
  points <> [] ->
  forall (hull : list Point) (pivot : Point) (h : list Point),
    incl hull points -> In pivot points ->
    JarvisMarch.march budget points hull pivot = Return h -> incl h points.
Proof.
  intros Hne. induction budget as [|budget IH]; intros hull pivot h Hh Hp;
    cbn [JarvisMarch.march]; [discriminate|].
  assert (Hh' : incl (hull ++ [pivot]) points).
  { intros q [Hq|[<-|[]]]%in_app_or; auto. }
  destruct (point_eqb _ _).
  - now intros [= <-].
  - apply IH; auto. now apply next_endpoint_In.
Qed.

Lemma jarvis_march_incl (budget : nat) (points h : list Point) :
  jarvis_march_convex_hull budget points = Return h -> incl h points.
Proof.
  unfold jarvis_march_convex_hull.
  destruct (Nat.ltb_spec (length points) 3) as [|Hlen]; [discriminate|].
  assert (Hne : points <> []) by (destruct points; cbn in *; [lia | discriminate]).
  apply march_incl; auto. { intros q []. } now apply min_by_key_In.
Qed.

(** Brute force *)

Lemma leftmost_lt (points : list Point) :
  points <> [] -> (BruteForce.leftmost points < length points)%nat.
Proof.
  intros H. unfold BruteForce.leftmost.
  apply fold_left_invariant.
  - destruct points; cbn; [congruence | lia].
  - intros a b Ha Hb%in_seq. destruct (_ <? _); lia.
Qed.

Lemma next_vertex_lt (points : list Point) (p : nat) :
  points <> [] -> (BruteForce.next_vertex points p < length points)%nat.
Proof.
  intros H. unfold BruteForce.next_vertex.
  apply fold_left_invariant.
  - apply Nat.mod_upper_bound. destruct points; cbn; [congruence | lia].
  - intros a b Ha Hb%in_seq. destruct (_ =? _); lia.
Qed.

Lemma wrap_incl (budget : nat) (points : list Point) (l : nat) :
  points <> [] ->
  forall (p : nat) (hull h : list Point),
    incl hull points -> (p < length points)%nat ->
    BruteForce.wrap budget points l p hull = Return h -> incl h points.
Proof.
  intros Hne. induction budget as [|budget IH]; intros p hull h Hh Hp;
    cbn [BruteForce.wrap]; [discriminate|].
  assert (Hh' : incl (hull ++ [item points p]) points).
  { intros q [Hq|[<-|[]]]%in_app_or; auto. now apply item_In_lt. }
  destruct (_ =? _)%nat.
  - now intros [= <-].
  - apply IH; auto. now apply next_vertex_lt.
Qed.

Lemma brute_force_incl (budget : nat) (points h : list Point) :
  brute_force budget points = Return h -> incl h points.
Proof.
  unfold brute_force.
  destruct (Nat.ltb_spec (length points) 3) as [|Hlen].
  - intros [= <-]. intros q [].
  - assert (Hne : points <> [])
      by (destruct points; cbn in *; [lia | discriminate]).
    apply wrap_incl; auto. { intros q []. } now apply leftmost_lt.
Qed.

(** Monotone chain *)

Lemma pop_while_incl (chain : list Point) (p : Point) :
  incl (MonotoneChain.pop_while chain p) chain.
Proof.
  induction chain as [|h1 chain IH]; cbn; [apply incl_refl|].
  destruct chain as [|h2 chain]; [apply incl_refl|].
  destruct (negb _); [|apply incl_refl].
  now apply incl_tl.
Qed.

Lemma build_fold_incl (points chain : list Point) :
  incl (fold_left (fun chain p => p :: MonotoneChain.pop_while chain p)
                  points chain)
       (chain ++ points).
Proof.
  revert chain. induction points as [|s points IH]; intros chain; cbn.
  - rewrite app_nil_r. apply incl_refl.
  - intros p Hp%IH. apply in_app_iff.
    apply in_app_or in Hp as [[<-|Hp]|Hp]; cbn; auto.
    apply pop_while_incl in Hp. auto.
Qed.

Lemma build_incl (points : list Point) : incl (MonotoneChain.build points) points.
Proof.
  unfold MonotoneChain.build. intros p Hp%in_rev.
  now apply build_fold_incl in Hp.
Qed.

Lemma andrews_monotone_chain_incl (points h : list Point) :
  andrews_monotone_chain points = Return h -> incl h points.
Proof.
  unfold andrews_monotone_chain. destruct (_ <? _)%nat; [discriminate|].
  intros [= <-] p [Hp|Hp]%in_app_or;
    apply removelast_In, build_incl in Hp.
  - now apply sorted_In in Hp.
  - now apply in_rev, sorted_In in Hp.
Qed.

(** Graham scan *)

Lemma graham_scan_incl (g : rng) (points h : list Point) :
  graham_scan g points = Return h -> incl h points.
Proof.
  intros H. destruct (Nat.le_gt_cases 2 (length points)) as [Hlen|Hlen].
  - destruct (Graham_Facts.graham_scan_returns g points Hlen)
      as (anchor & s0 & rest & i & Hin & Hi & Hdel & E).
    rewrite E in H. injection H as <-.
    intros p Hp%in_rev%Graham_Facts.scan_incl.
    assert (Hsub : forall q, In q (s0 :: rest) -> In q points).
    { intros q Hq. rewrite <- Hdel in Hq. apply del_In in Hq.
      now apply sorted_In in Hq. }
    cbn in Hp. destruct Hp as [<-|[<-|Hp]]; auto.
    + apply Hsub. now left.
    + apply Hsub. now right.
  - exfalso. destruct points as [|p [|q points]]; cbn in Hlen; try lia.
    + now rewrite Graham_Facts.graham_scan_nil in H.
    + now rewrite Graham_Facts.graham_scan_singleton in H.
Qed.

(** QuickHull *)

Lemma edges_vertices_incl (l : list Point) :
  l <> [] -> incl (vertices_of (Edges (QuickHull.edges l))) l.
Proof.
  intros Hne p Hp. cbn in Hp. apply in_flat_map in Hp as (e & He & Hp).
  unfold QuickHull.edges in He. apply in_map_iff in He as (i & <- & Hi%in_seq).
  destruct (Nat.eqb_spec i (length l - 1)); cbn in Hp;
    destruct Hp as [<-|[<-|[]]]; apply item_In_lt; lia.
Qed.

Lemma quickhull_incl (points : list Point) (h : hull_shape) :
  quickhull points = Return h -> incl (vertices_of h) points.
Proof.
  destruct (Nat.le_gt_cases 2 (length points)) as [Hlen|Hlen].
  - destruct (QuickHull_Facts.quickhull_long points Hlen)
      as (l & r & _ & _ & Hl & Hr & ->).
    intros [= <-].
    assert (Hne : points <> [])
      by (destruct points; cbn in *; [lia | discriminate]).
    destruct (QuickHull_Facts.find_min_and_max_In points Hne) as [Hlo Hhi].
    intros p Hp%edges_vertices_incl.
    + apply (Permutation_in _ (QuickHull_Facts.sort_around_centre_perm _)) in Hp.
      cbn in Hp. destruct Hp as [<-|[<-|[Hp|Hp]%in_app_or]]; auto.
    + intros E. apply (f_equal (@length _)) in E.
      rewrite (Permutation_length (QuickHull_Facts.sort_around_centre_perm _))
        in E. discriminate.
  - rewrite QuickHull_Facts.quickhull_short by lia.
    intros [= <-]. apply incl_refl.
Qed.

(** C8.  Whatever method is selected, on whatever input: when it returns,
    every vertex of the hull it returns (for QuickHull every end point of
    an edge) is one of the input points. *)
Theorem hull_vertices_are_input_points
        (a : algorithm) (g : rng) (budget : nat) (points : list Point)
        (h : hull_shape) :
  App.selected a g budget points = Return h ->
  incl (vertices_of h) points.
Proof.
  destruct a; cbn [App.selected].
  - destruct (graham_scan g points) eqn:E; cbn; try discriminate.
    intros [= <-]. now apply graham_scan_incl in E.
  - destruct (jarvis_march_convex_hull budget points) eqn:E; cbn;
      try discriminate.
    intros [= <-]. now apply jarvis_march_incl in E.
  - apply quickhull_incl.
  - destruct (andrews_monotone_chain points) eqn:E; cbn; try discriminate.
    intros [= <-]. now apply andrews_monotone_chain_incl in E.
  - destruct (brute_force budget points) eqn:E; cbn; try discriminate.
    intros [= <-]. now apply brute_force_incl in E.
Qed.

Lemma hull_vertices_are_input_points_witness :
  incl [(0, 0); (4, 1); (2, 5)] [(0, 0); (4, 1); (2, 5); (0, 0); (2, 2)].
Proof.
  apply (hull_vertices_are_input_points
           Graham_Scan (fun _ => O) O
           [(0, 0); (4, 1); (2, 5); (0, 0); (2, 2)]
           (Vertices [(0, 0); (4, 1); (2, 5)])).
  reflexivity.
Defined.

End Membership.

(** *** Runs of one method on one input *)

Module Determinism.
Import Py Py_Facts Convex_Hull.

(** A larger budget does not change what a finished loop returned. *)
Lemma march_budget (b : nat) (points : list Point) :
  forall (hull : list Point) (pivot : Point) (h : list Point) (b' : nat),
    (b <= b')%nat ->
    JarvisMarch.march b points hull pivot = Return h ->
    JarvisMarch.march b' points hull pivot = Return h.
Proof.
  induction b as [|b IH]; intros hull pivot h b' Hb; [discriminate|].
  destruct b' as [|b']; [lia|]. cbn [JarvisMarch.march].
  destruct (point_eqb _ _); auto.
  apply IH. lia.
Qed.

Lemma wrap_budget (b : nat) (points : list Point) (l : nat) :
  forall (p : nat) (hull h : list Point) (b' : nat),
    (b <= b')%nat ->
    BruteForce.wrap b points l p hull = Return h ->
    BruteForce.wrap b' points l p hull = Return h.
Proof.
  induction b as [|b IH]; intros p hull h b' Hb; [discriminate|].
  destruct b' as [|b']; [lia|]. cbn [BruteForce.wrap].
  destruct (_ =? _)%nat; auto.
  apply IH. lia.
Qed.

Lemma selected_budget (a : algorithm) (g : rng) (b b' : nat)
      (points : list Point) (h : hull_shape) :
  (b <= b')%nat ->
  App.selected a g b points = Return h -> App.selected a g b' points = Return h.
Proof.
  intros Hb. destruct a; cbn [App.selected]; auto.
  - unfold jarvis_march_convex_hull. destruct (_ <? _)%nat; auto.
    destruct (JarvisMarch.march b _ _ _) eqn:E; try discriminate.
    now rewrite (march_budget _ _ _ _ _ _ Hb E).
  - unfold brute_force. destruct (_ <? _)%nat; auto.
    destruct (BruteForce.wrap b _ _ _ _) eqn:E; try discriminate.
    now rewrite (wrap_budget _ _ _ _ _ _ _ Hb E).
Qed.

(** C9.  The pivots that [graham_scan] draws do not show in any result: a
    method run with two generators does the same thing, and two runs of a
    method on one input that return, return the same hull, hence the same
    set of vertices. *)
Theorem same_hull_on_every_run (a : algorithm) (points : list Point) :
  (forall (g1 g2 : rng) (budget : nat),
      App.selected a g1 budget points = App.selected a g2 budget points)
  /\ (forall (g1 g2 : rng) (b1 b2 : nat) (h1 h2 : hull_shape),
         App.selected a g1 b1 points = Return h1 ->
         App.selected a g2 b2 points = Return h2 ->
         h1 = h2).
Proof.
  assert (H : forall g1 g2 budget,
             App.selected a g1 budget points = App.selected a g2 budget points).
  { intros g1 g2 budget. destruct a; cbn [App.selected]; auto.
    now rewrite !Graham_Facts.graham_scan_any_pivots. }
  split; auto.
  intros g1 g2 b1 b2 h1 h2 H1 H2.
  apply (selected_budget _ _ _ (Nat.max b1 b2)) in H1, H2; try lia.
  rewrite (H g1 g2) in H1. congruence.
Qed.

Lemma same_hull_on_every_run_witness :
  Vertices [(0, 0); (4, 1); (2, 5)] = Vertices [(0, 0); (4, 1); (2, 5)].
Proof.
  apply (proj2 (same_hull_on_every_run
                  Graham_Scan [(0, 0); (4, 1); (2, 5); (0, 0); (2, 2)])
               (fun _ => O) (fun n => (7 * n + 3)%nat) O 5%nat);
    reflexivity.
Defined.

End Determinism.


(** *** Inputs of fewer than three points *)

Module Small_Inputs.
Import Py Py_Facts Convex_Hull.

Lemma brute_force_small (budget : nat) (points : list Point) :
  (length points < 3)%nat -> brute_force budget points = Return [].
Proof. intros H. unfold brute_force. now apply Nat.ltb_lt in H as ->. Qed.

(** C2 as stated fails: on two points [brute_force] returns the empty list,
    not the two points; on one point it returns the empty list and
    [graham_scan] raises, as it does on no point. *)
Lemma pass_through_counterexample :
  brute_force 0 [(0, 0); (1, 1)] <> Return [(0, 0); (1, 1)]
  /\ brute_force 0 [(1, 1)] <> Return [(1, 1)]
  /\ graham_scan (fun _ => O) [(1, 1)] <> Return [(1, 1)]
  /\ graham_scan (fun _ => O) [] <> Return [].
Proof. repeat split; discriminate. Qed.

(** C2, amended.  On fewer than three points [brute_force] returns the
    empty list.  [quickhull] returns the input itself for at most one point,
    and for two points of different abscissas the edge from the left one to
    the right one and the edge back.  [graham_scan] returns two points as
    they are when the first is the lower one (the left one of two on a
    level, or the same point twice), and swapped otherwise.  None of these
    calls raises. *)
Theorem small_inputs (g : rng) (budget : nat) :
  (forall points : list Point,
      (length points < 3)%nat -> brute_force budget points = Return [])
  /\ (forall points : list Point,
         (length points <= 1)%nat -> quickhull points = Return (Vertices points))
  /\ (forall p q : Point,
         px p < px q ->
         quickhull [p; q] = Return (Edges [(p, q); (q, p)])
         /\ quickhull [q; p] = Return (Edges [(p, q); (q, p)]))
  /\ (forall p q : Point,
         graham_scan g [p; q]
         = Return (if JarvisMarch.key_ltb q p then [q; p] else [p; q])).
Proof.
  split; [|split; [|split]].
  - apply brute_force_small.
  - apply QuickHull_Facts.quickhull_short.
  - apply QuickHull_Facts.quickhull_two.
  - apply Graham_Facts.graham_scan_two.
Qed.

Lemma small_inputs_witness :
  brute_force 0 [(0, 0); (1, 1)] = Return []
  /\ quickhull [(3, 4)] = Return (Vertices [(3, 4)])
  /\ quickhull [(5, 0); (1, 1)] = Return (Edges [((1, 1), (5, 0)); ((5, 0), (1, 1))]).
Proof.
  pose proof (small_inputs (fun _ => O) O) as (Hb & Hq & Hq2 & _).
  split; [|split].
  - apply Hb. cbn. lia.
  - apply Hq. cbn. lia.
  - apply (Hq2 (1, 1) (5, 0)). cbn. lia.
Defined.

End Small_Inputs.

(** *** Collinear points *)

Module Collinear_Points.
Import Py Py_Facts Convex_Hull.

(** All points of the list lie on one line. *)
Definition all_collinear (points : list Point) : bool :=
  forallb (fun p =>
    forallb (fun q =>
      forallb (fun r => GrahamScan.det p q r =? 0) points) points) points.

(** At least three points, not all on one line. *)
Definition non_degenerate (points : list Point) : bool :=
  (3 <=? length points)%nat && negb (all_collinear points).

(** Two lists hold the same set of points. *)
Definition same_vertices (h1 h2 : list Point) : Prop :=
  incl h1 h2 /\ incl h2 h1.

(** Three points on a horizontal line, the rightmost first: the march goes
    from (0, 0) to (2, 0) and then to and fro between (1, 0) and (2, 0). *)
Lemma march_to_and_fro (budget : nat) :
  forall hull : list Point,
    JarvisMarch.march budget [(2, 0); (1, 0); (0, 0)] ((0, 0) :: hull) (2, 0)
    = Timeout
    /\ JarvisMarch.march budget [(2, 0); (1, 0); (0, 0)] ((0, 0) :: hull) (1, 0)
       = Timeout.
Proof.
  induction budget as [|budget IH]; intros hull; [split; reflexivity|].
  split; cbn [JarvisMarch.march app item nth];
    [change (JarvisMarch.next_endpoint [(2, 0); (1, 0); (0, 0)] (2, 0))
       with ((1, 0) : Point)
    |change (JarvisMarch.next_endpoint [(2, 0); (1, 0); (0, 0)] (1, 0))
       with ((2, 0) : Point)];
    cbn [point_eqb px py fst snd Z.eqb Pos.eqb andb]; apply IH.
Qed.

(** C3, at a failing input.  On the three points (2,0), (1,0), (0,0) the
    Jarvis march never returns, whatever the number of rounds it is given:
    it neither raises nor produces a hull. *)
Theorem jarvis_march_runs_forever (budget : nat) :
  jarvis_march_convex_hull budget [(2, 0); (1, 0); (0, 0)] = Timeout.
Proof.
  unfold jarvis_march_convex_hull. cbn [length Nat.ltb Nat.leb].
  change (JarvisMarch.min_by_key [(2, 0); (1, 0); (0, 0)]) with ((0, 0) : Point).
  destruct budget as [|budget]; [reflexivity|].
  cbn [JarvisMarch.march app item nth].
  change (JarvisMarch.next_endpoint [(2, 0); (1, 0); (0, 0)] (0, 0))
    with ((2, 0) : Point).
  cbn [point_eqb px py fst snd Z.eqb Pos.eqb andb].
  apply march_to_and_fro.
Qed.

(** C4, at failing inputs.  On points of one line the methods do not all
    return the two extreme points: [brute_force] returns every point,
    the Jarvis march stops at the middle point or (C3) does not stop, and
    [quickhull] on a vertical line returns one point twice. *)
Theorem collinear_points_not_two_extremes :
  all_collinear [(0, 0); (1, 0); (2, 0)] = true
  /\ brute_force 3 [(0, 0); (1, 0); (2, 0)] = Return [(0, 0); (1, 0); (2, 0)]
  /\ jarvis_march_convex_hull 2 [(1, 0); (0, 0); (2, 0)]
     = Return [(0, 0); (1, 0)]
  /\ all_collinear [(0, 0); (0, 2); (0, 1)] = true
  /\ quickhull [(0, 0); (0, 2); (0, 1)]
     = Return (Edges [((0, 1), (0, 1)); ((0, 1), (0, 1))])
  /\ graham_scan (fun _ => O) [(0, 0); (1, 0); (2, 0)] = Return [(0, 0); (2, 0)]
  /\ andrews_monotone_chain [(0, 0); (1, 0); (2, 0)] = Return [(0, 0); (2, 0)].
Proof. repeat split; vm_compute; reflexivity. Qed.

(** C1, at a failing input.  The four points (0,0), (0,1), (0,2), (2,1) are
    not all on one line.  The Jarvis march returns (0,0), (0,1), (2,1): it
    misses the corner (0,2), which the monotone chain, the Graham scan and
    QuickHull return, and [brute_force] returns all four points. *)
Theorem hull_methods_disagree :
  let points := [(0, 0); (0, 1); (0, 2); (2, 1)] in
  non_degenerate points = true
  /\ jarvis_march_convex_hull 3 points = Return [(0, 0); (0, 1); (2, 1)]
  /\ andrews_monotone_chain points = Return [(0, 0); (2, 1); (0, 2)]
  /\ graham_scan (fun _ => O) points = Return [(0, 0); (2, 1); (0, 2)]
  /\ quickhull points
     = Return (Edges [((0, 0), (0, 2)); ((0, 2), (2, 1)); ((2, 1), (0, 0))])
  /\ brute_force 4 points = Return [(0, 0); (0, 1); (0, 2); (2, 1)]
  /\ ~ same_vertices [(0, 0); (0, 1); (2, 1)] [(0, 0); (2, 1); (0, 2)]
  /\ ~ same_vertices [(0, 0); (0, 1); (0, 2); (2, 1)] [(0, 0); (2, 1); (0, 2)].
Proof.
  cbn zeta. repeat split; try (vm_compute; reflexivity).
  - intros [_ H]. specialize (H (0, 2)). cbn in H.
    destruct H as [H|[H|[H|[]]]]; auto; discriminate.
  - intros [H _]. specialize (H (0, 1)). cbn in H.
    destruct H as [H|[H|[H|[]]]]; auto; discriminate.
Qed.

End Collinear_Points.

(** ** The list objects: what the methods do to the heap *)

Module Objects_Facts.
Import Py Py_Facts Objects Convex_Hull.
Module O := Convex_Hull_Objects.

Lemma next_alloc (l : list Point) (h : heap) : next (alloc l h) = S (next h).
Proof. reflexivity. Qed.

Lemma cell_alloc_new (l : list Point) (h : heap) : cell (alloc l h) (next h) = l.
Proof. cbn. now rewrite Nat.eqb_refl. Qed.

Lemma cell_alloc_old (l : list Point) (h : heap) (x : ref) :
  (x < next h)%nat -> cell (alloc l h) x = cell h x.
Proof. intros H. cbn. destruct (Nat.eqb_spec x (next h)); [lia | auto]. Qed.

Lemma next_update (r : ref) (l : list Point) (h : heap) :
  next (update r l h) = next h.
Proof. reflexivity. Qed.

Lemma cell_update_same (r : ref) (l : list Point) (h : heap) :
  cell (update r l h) r = l.
Proof. cbn. now rewrite Nat.eqb_refl. Qed.

Lemma cell_update_other (r : ref) (l : list Point) (h : heap) (x : ref) :
  x <> r -> cell (update r l h) x = cell h x.
Proof. intros H. cbn. destruct (Nat.eqb_spec x r); [congruence | auto]. Qed.

Lemma cell_alloc_eq (l : list Point) (h : heap) (x : ref) :
  x = next h -> cell (alloc l h) x = l.
Proof. intros ->. apply cell_alloc_new. Qed.

Lemma cell_update_eq (r : ref) (l : list Point) (h : heap) (x : ref) :
  x = r -> cell (update r l h) x = l.
Proof. intros ->. apply cell_update_same. Qed.

Ltac heap_side := rewrite ?next_alloc, ?next_update; lia.

Ltac heap_simpl :=
  repeat first
         [ rewrite cell_alloc_eq by heap_side
         | rewrite cell_alloc_old by heap_side
         | rewrite cell_update_eq by heap_side
         | rewrite cell_update_other by heap_side ];
  rewrite ?next_alloc, ?next_update.

(** *** The loops of the Jarvis march and of brute force *)

Lemma march_step (budget : nat) (self_points hull : ref) (pivot : Point)
      (h : heap) :
  O.march (S budget) self_points hull pivot h =
  let h1 := update hull (cell h hull ++ [pivot]) h in
  let endpoint := JarvisMarch.next_endpoint (cell h1 self_points) pivot in
  if point_eqb endpoint (item (cell h1 hull) 0) then Done hull h1
  else O.march budget self_points hull endpoint h1.
Proof. cbn. now destruct (point_eqb _ _). Qed.

Lemma wrap_step (budget : nat) (points hull : ref) (l p : nat) (h : heap) :
  O.wrap (S budget) points l p hull h =
  let h1 := update hull (cell h hull ++ [item (cell h points) p]) h in
  let p := BruteForce.next_vertex (cell h1 points) p in
  if (p =? l)%nat then Done hull h1 else O.wrap budget points l p hull h1.
Proof. cbn. now destruct (_ =? _)%nat. Qed.

Lemma march_run (budget : nat) (self_points hull : ref) :
  hull <> self_points ->
  forall (pivot : Point) (h : heap),
    match JarvisMarch.march budget (cell h self_points) (cell h hull) pivot with
    | Return l =>
        exists h', O.march budget self_points hull pivot h = Done hull h'
                   /\ cell h' hull = l /\ next h' = next h
                   /\ forall x, x <> hull -> cell h' x = cell h x
    | Raise _ => False
    | Timeout => O.march budget self_points hull pivot h = Unfinished
    end.
Proof.
  intros Hne. induction budget as [|budget IH]; intros pivot h; [reflexivity|].
  rewrite march_step. cbn [JarvisMarch.march]. cbn zeta.
  set (h1 := update hull (cell h hull ++ [pivot]) h).
  assert (E1 : cell h1 self_points = cell h self_points)
    by (unfold h1; heap_simpl; auto).
  assert (E2 : cell h1 hull = cell h hull ++ [pivot])
    by (unfold h1; now heap_simpl).
  rewrite E1, E2.
  destruct (point_eqb _ _).
  - exists h1. split; [reflexivity|]. split; [exact E2|]. split; [reflexivity|].
    intros x Hx. unfold h1. now heap_simpl.
  - specialize (IH (JarvisMarch.next_endpoint (cell h self_points) pivot) h1).
    rewrite E1, E2 in IH.
    destruct (JarvisMarch.march budget _ _ _); [|contradiction|exact IH].
    destruct IH as (h' & E & Hc & Hn & Hx).
    exists h'. split; [exact E|]. split; [exact Hc|]. split; [exact Hn|].
    intros x Hxh. rewrite Hx by auto. unfold h1. now heap_simpl.
Qed.

Lemma wrap_run (budget : nat) (points hull : ref) (l : nat) :
  hull <> points ->
  forall (p : nat) (h : heap),
    match BruteForce.wrap budget (cell h points) l p (cell h hull) with
    | Return v =>
        exists h', O.wrap budget points l p hull h = Done hull h'
                   /\ cell h' hull = v /\ next h' = next h
                   /\ forall x, x <> hull -> cell h' x = cell h x
    | Raise _ => False
    | Timeout => O.wrap budget points l p hull h = Unfinished
    end.
Proof.
  intros Hne. induction budget as [|budget IH]; intros p h; [reflexivity|].
  rewrite wrap_step. cbn [BruteForce.wrap]. cbn zeta.
  set (h1 := update hull (cell h hull ++ [item (cell h points) p]) h).
  assert (E1 : cell h1 points = cell h points)
    by (unfold h1; heap_simpl; auto).
  assert (E2 : cell h1 hull = cell h hull ++ [item (cell h points) p])
    by (unfold h1; now heap_simpl).
  rewrite E1.
  destruct (_ =? _)%nat.
  - exists h1. split; [reflexivity|]. split; [exact E2|]. split; [reflexivity|].
    intros x Hx. unfold h1. now heap_simpl.
  - specialize (IH (BruteForce.next_vertex (cell h points) p) h1).
    rewrite E1, E2 in IH.
    destruct (BruteForce.wrap budget _ _ _ _); [|contradiction|exact IH].
    destruct IH as (h' & E & Hc & Hn & Hx).
    exists h'. split; [exact E|]. split; [exact Hc|]. split; [exact Hn|].
    intros x Hxh. rewrite Hx by auto. unfold h1. now heap_simpl.
Qed.

(** *** The sort of the Graham scan *)

Lemma quicksort_step (budget : nat) (anchor : Point) (a : ref) (g : rng)
      (h : heap) :
  O.quicksort (S budget) anchor a g h =
  let av := cell h a in
  if (length av <=? 1)%nat then Done (a, g) h
  else
    let piv_ang :=
      GrahamScan.polar_angle (item av (fst (randint g 0 (length av - 1)))) anchor in
    let h1 := alloc (GrahamScan.smaller_of anchor piv_ang av) h in
    let h2 := alloc (GrahamScan.equal_of anchor piv_ang av) h1 in
    let h3 := alloc (GrahamScan.larger_of anchor piv_ang av) h2 in
    match O.quicksort budget anchor (next h) (snd (randint g 0 (length av - 1))) h3
    with
    | Done (s, g2) h4 =>
        let h5 := alloc (sorted (fun p q => GrahamScan.distance p anchor
                                            <? GrahamScan.distance q anchor)
                                (cell h4 (next h1))) h4 in
        let h6 := alloc (cell h5 s ++ cell h5 (next h4)) h5 in
        match O.quicksort budget anchor (next h2) g2 h6 with
        | Done (l, g3) h7 =>
            Done (next h7, g3) (alloc (cell h7 (next h5) ++ cell h7 l) h7)
        | Failed e h7 => Failed e h7
        | Unfinished => Unfinished
        end
    | Failed e h4 => Failed e h4
    | Unfinished => Unfinished
    end.
Proof.
  cbn [O.quicksort]. unfold and_then at 1. cbn [load]. cbn zeta.
  destruct (_ <=? _)%nat; [reflexivity|].
  unfold randint. cbn [fst snd].
  do 4 (unfold and_then at 1; cbn [new load]).
  destruct (O.quicksort budget _ _ _ _) as [[s g2] h4| |]; try reflexivity.
  do 6 (unfold and_then at 1; cbn [new load]).
  destruct (O.quicksort budget _ _ _ _) as [[l g3] h7| |]; try reflexivity.
Qed.

(** [quicksort] on an object: the value-level result in a new object, or
    the argument itself when it has at most one element; no object that was
    there before is changed. *)
Lemma quicksort_run (budget : nat) (anchor : Point) :
  forall (a : ref) (g : rng) (h : heap),
    (a < next h)%nat ->
    match GrahamScan.quicksort budget anchor (cell h a) g with
    | Return (l, g') =>
        exists r h',
          O.quicksort budget anchor a g h = Done (r, g') h'
          /\ cell h' r = l
          /\ (next h <= next h')%nat
          /\ (r < next h')%nat
          /\ (forall x, (x < next h)%nat -> cell h' x = cell h x)
          /\ ((length (cell h a) <= 1)%nat -> r = a /\ next h' = next h)
          /\ ((1 < length (cell h a))%nat -> (next h <= r)%nat)
    | Raise _ => False
    | Timeout => O.quicksort budget anchor a g h = Unfinished
    end.
Proof.
  induction budget as [|budget IH]; intros a g h Ha.
  - cbn [GrahamScan.quicksort O.quicksort]. unfold and_then, load.
    destruct (Nat.leb_spec (length (cell h a)) 1); [|reflexivity].
    exists a, h. repeat split; auto; lia.
  - rewrite quicksort_step. cbn [GrahamScan.quicksort]. cbn zeta.
    destruct (Nat.leb_spec (length (cell h a)) 1) as [Hlen|Hlen].
    { exists a, h. repeat split; auto; lia. }
    destruct (randint g 0 (length (cell h a) - 1)) as [k g1]. cbn [fst snd].
    set (piv := GrahamScan.polar_angle (item (cell h a) k) anchor).
    set (S_ := GrahamScan.smaller_of anchor piv (cell h a)).
    set (E_ := GrahamScan.equal_of anchor piv (cell h a)).
    set (L_ := GrahamScan.larger_of anchor piv (cell h a)).
    set (h1 := alloc S_ h). set (h2 := alloc E_ h1). set (h3 := alloc L_ h2).
    assert (N1 : next h1 = S (next h)) by reflexivity.
    assert (N2 : next h2 = S (S (next h))) by reflexivity.
    assert (N3 : next h3 = S (S (S (next h)))) by reflexivity.
    assert (C3s : cell h3 (next h) = S_).
    { unfold h3, h2, h1. rewrite !cell_alloc_old by (heap_simpl; lia).
      apply cell_alloc_new. }
    assert (C3e : cell h3 (next h1) = E_).
    { unfold h3, h2. rewrite cell_alloc_old by (heap_simpl; lia).
      apply cell_alloc_new. }
    assert (C3l : cell h3 (next h2) = L_) by apply cell_alloc_new.
    assert (C3o : forall x, (x < next h)%nat -> cell h3 x = cell h x).
    { intros x Hx. unfold h3, h2, h1.
      now rewrite !cell_alloc_old by (heap_simpl; lia). }
    pose proof (IH (next h) g1 h3 ltac:(lia)) as IH1. rewrite C3s in IH1.
    destruct (GrahamScan.quicksort budget anchor S_ g1) as [[s g2]| |];
      [|contradiction|now rewrite IH1].
    destruct IH1 as (rs & h4 & -> & Cs & N4 & Rs & O4 & _ & _).
    cbn [bind].
    set (h5 := alloc _ h4). set (h6 := alloc _ h5).
    assert (N5 : next h5 = S (next h4)) by reflexivity.
    assert (N6 : next h6 = S (S (next h4))) by reflexivity.
    assert (C4e : cell h4 (next h1) = E_) by (rewrite O4 by lia; exact C3e).
    assert (C5s : cell h5 rs = s)
      by (unfold h5; rewrite cell_alloc_old by lia; exact Cs).
    assert (C5e : cell h5 (next h4)
                  = sorted (fun p q => GrahamScan.distance p anchor
                                       <? GrahamScan.distance q anchor) E_)
      by (unfold h5; rewrite cell_alloc_new, C4e; reflexivity).
    assert (C6se : cell h6 (next h5) = cell h5 rs ++ cell h5 (next h4))
      by apply cell_alloc_new.
    assert (C6l : cell h6 (next h2) = L_).
    { unfold h6, h5. rewrite !cell_alloc_old by (heap_simpl; lia).
      rewrite O4 by lia. exact C3l. }
    pose proof (IH (next h2) g2 h6 ltac:(lia)) as IH2. rewrite C6l in IH2.
    destruct (GrahamScan.quicksort budget anchor L_ g2) as [[l g3]| |];
      [|contradiction|now rewrite IH2].
    destruct IH2 as (rl & h7 & -> & Cl & N7 & Rl & O7 & _ & _).
    cbn [bind].
    exists (next h7), (alloc (cell h7 (next h5) ++ cell h7 rl) h7).
    split; [reflexivity|]. split.
    { rewrite cell_alloc_new, Cl, O7 by lia.
      rewrite C6se, C5s, C5e. now rewrite <- app_assoc. }
    split; [heap_simpl; lia|]. split; [heap_simpl; lia|]. split.
    { intros x Hx. rewrite cell_alloc_old by lia. rewrite O7 by lia.
      unfold h6, h5. rewrite !cell_alloc_old by (heap_simpl; lia).
      rewrite O4 by lia. now apply C3o. }
    split; [lia|]. intros _. lia.
Qed.

(** *** The recursion of QuickHull *)

Lemma quick_hull_left_obj_step (budget : nat) (list_of_hull points : ref)
      (lo hi : Point) (h : heap) :
  cell h points <> [] ->
  O.quick_hull_left (S budget) list_of_hull points lo hi h =
  let max_point := QuickHull.find_max_distance (cell h points) lo hi in
  let h1 := update points (remove max_point (cell h points)) h in
  let h2 := update list_of_hull (cell h1 list_of_hull ++ [max_point]) h1 in
  let h3 := alloc (fst (QuickHull.divide_side (cell h2 points) lo max_point)) h2 in
  let h4 := alloc (snd (QuickHull.divide_side (cell h2 points) lo max_point)) h3 in
  let h5 := alloc (fst (QuickHull.divide_side (cell h4 points) max_point hi)) h4 in
  let h6 := alloc (snd (QuickHull.divide_side (cell h4 points) max_point hi)) h5 in
  match O.quick_hull_left budget list_of_hull (next h2) lo max_point h6 with
  | Done _ h7 => O.quick_hull_left budget list_of_hull (next h4) max_point hi h7
  | Failed e h7 => Failed e h7
  | Unfinished => Unfinished
  end.
Proof.
  intros Hne. cbn [O.quick_hull_left]. unfold and_then at 1. cbn [load].
  destruct (cell h points) as [|p ps] eqn:E; [congruence|].
  do 9 (unfold and_then at 1; cbn [new load store]).
  reflexivity.
Qed.

(** The recursion on objects: it appends to [list_of_hull] what the
    value-level recursion returns, and of the objects that were there before
    it changes only [list_of_hull] and the list it is given. *)
Lemma quick_hull_left_run (budget : nat) (list_of_hull : ref) :
  forall (points : ref) (lo hi : Point) (h : heap),
    (list_of_hull < next h)%nat -> (points < next h)%nat ->
    points <> list_of_hull ->
    match QuickHull.quick_hull_left budget (cell h points) lo hi with
    | Return l =>
        exists h',
          O.quick_hull_left budget list_of_hull points lo hi h = Done tt h'
          /\ cell h' list_of_hull = cell h list_of_hull ++ l
          /\ (next h <= next h')%nat
          /\ (forall x, (x < next h)%nat -> x <> list_of_hull -> x <> points ->
                        cell h' x = cell h x)
    | Raise _ => False
    | Timeout => O.quick_hull_left budget list_of_hull points lo hi h = Unfinished
    end.
Proof.
  induction budget as [|budget IH]; intros points lo hi h Hl Hp Hne.
  - cbn [QuickHull.quick_hull_left O.quick_hull_left]. unfold and_then, load.
    destruct (cell h points); [|reflexivity].
    exists h. rewrite app_nil_r. repeat split; auto.
  - destruct (cell h points) as [|p ps] eqn:E.
    { cbn [QuickHull.quick_hull_left O.quick_hull_left]. unfold and_then, load.
      rewrite E. exists h. rewrite app_nil_r. repeat split; auto. }
    rewrite <- E.
    assert (Hnil : cell h points <> []) by (rewrite E; discriminate).
    rewrite quick_hull_left_obj_step, QuickHull_Facts.quick_hull_left_step by assumption.
    cbn zeta. clear E p ps.
    set (max_point := QuickHull.find_max_distance (cell h points) lo hi).
    set (h1 := update points (remove max_point (cell h points)) h).
    set (h2 := update list_of_hull (cell h1 list_of_hull ++ [max_point]) h1).
    assert (C2p : cell h2 points = remove max_point (cell h points)).
    { unfold h2, h1. rewrite cell_update_other by lia.
      apply cell_update_same. }
    assert (C2l : cell h2 list_of_hull = cell h list_of_hull ++ [max_point]).
    { unfold h2, h1. rewrite cell_update_same.
      now rewrite cell_update_other by lia. }
    assert (C2o : forall x, x <> list_of_hull -> x <> points ->
                            cell h2 x = cell h x).
    { intros x H1 H2. unfold h2, h1. now rewrite !cell_update_other by lia. }
    assert (N2 : next h2 = next h) by reflexivity.
    set (h3 := alloc _ h2). assert (N3 : next h3 = S (next h)) by reflexivity.
    set (h4 := alloc _ h3). assert (N4 : next h4 = S (S (next h))) by reflexivity.
    set (h5 := alloc _ h4).
    assert (N5 : next h5 = S (S (S (next h)))) by reflexivity.
    set (h6 := alloc _ h5).
    assert (N6 : next h6 = S (S (S (S (next h))))) by reflexivity.
    assert (S3 : forall x, (x < next h2)%nat -> cell h3 x = cell h2 x)
      by (intros x Hx; now apply cell_alloc_old).
    assert (S4 : forall x, (x < next h3)%nat -> cell h4 x = cell h3 x)
      by (intros x Hx; now apply cell_alloc_old).
    assert (S5 : forall x, (x < next h4)%nat -> cell h5 x = cell h4 x)
      by (intros x Hx; now apply cell_alloc_old).
    assert (S6 : forall x, (x < next h5)%nat -> cell h6 x = cell h5 x)
      by (intros x Hx; now apply cell_alloc_old).
    assert (C4p : cell h4 points = remove max_point (cell h points))
      by (rewrite S4, S3, C2p by lia; reflexivity).
    assert (C6o : forall x, (x < next h)%nat -> cell h6 x = cell h2 x).
    { intros x Hx. now rewrite S6, S5, S4, S3 by lia. }
    assert (C61 : cell h6 (next h2)
                  = fst (QuickHull.divide_side
                           (remove max_point (cell h points)) lo max_point)).
    { rewrite S6, S5 by lia. rewrite ?S4 by lia.
      unfold h3. rewrite cell_alloc_new. now rewrite C2p. }
    assert (C62 : cell h6 (next h4)
                  = fst (QuickHull.divide_side
                           (remove max_point (cell h points)) max_point hi)).
    { rewrite ?S6 by lia.
      unfold h5. rewrite cell_alloc_new. now rewrite C4p. }
    pose proof (IH (next h2) lo max_point h6 ltac:(lia) ltac:(lia) ltac:(lia))
      as IH1.
    rewrite C61 in IH1.
    destruct (QuickHull.quick_hull_left budget _ lo max_point) as [l1| |];
      [|contradiction|now rewrite IH1].
    destruct IH1 as (h7 & -> & C7l & N7 & C7o). cbn [bind].
    pose proof (IH (next h4) max_point hi h7 ltac:(lia) ltac:(lia) ltac:(lia))
      as IH2.
    rewrite (C7o (next h4)), C62 in IH2 by lia.
    destruct (QuickHull.quick_hull_left budget _ max_point hi) as [l2| |];
      [|contradiction|exact IH2].
    destruct IH2 as (h8 & -> & C8l & N8 & C8o). cbn [bind].
    exists h8. split; [reflexivity|]. split.
    { rewrite C8l, C7l, (C6o list_of_hull), C2l by lia.
      rewrite <- !app_assoc. reflexivity. }
    split; [lia|].
    intros x Hx H1 H2.
    rewrite C8o, C7o, C6o by lia. now apply C2o.
Qed.

Lemma quick_hull_right_obj_step (budget : nat) (list_of_hull points : ref)
      (lo hi : Point) (h : heap) :
  cell h points <> [] ->
  O.quick_hull_right (S budget) list_of_hull points lo hi h =
  let max_point := QuickHull.find_max_distance (cell h points) lo hi in
  let h1 := update points (remove max_point (cell h points)) h in
  let h2 := update list_of_hull (cell h1 list_of_hull ++ [max_point]) h1 in
  let h3 := alloc (fst (QuickHull.divide_side (cell h2 points) lo max_point)) h2 in
  let h4 := alloc (snd (QuickHull.divide_side (cell h2 points) lo max_point)) h3 in
  let h5 := alloc (fst (QuickHull.divide_side (cell h4 points) max_point hi)) h4 in
  let h6 := alloc (snd (QuickHull.divide_side (cell h4 points) max_point hi)) h5 in
  match O.quick_hull_right budget list_of_hull (next h3) lo max_point h6 with
  | Done _ h7 => O.quick_hull_right budget list_of_hull (next h5) max_point hi h7
  | Failed e h7 => Failed e h7
  | Unfinished => Unfinished
  end.
Proof.
  intros Hne. cbn [O.quick_hull_right]. unfold and_then at 1. cbn [load].
  destruct (cell h points) as [|p ps] eqn:E; [congruence|].
  do 9 (unfold and_then at 1; cbn [new load store]).
  reflexivity.
Qed.

(** The recursion on objects: it appends to [list_of_hull] what the
    value-level recursion returns, and of the objects that were there before
    it changes only [list_of_hull] and the list it is given. *)
Lemma quick_hull_right_run (budget : nat) (list_of_hull : ref) :
  forall (points : ref) (lo hi : Point) (h : heap),
    (list_of_hull < next h)%nat -> (points < next h)%nat ->
    points <> list_of_hull ->
    match QuickHull.quick_hull_right budget (cell h points) lo hi with
    | Return l =>
        exists h',
          O.quick_hull_right budget list_of_hull points lo hi h = Done tt h'
          /\ cell h' list_of_hull = cell h list_of_hull ++ l
          /\ (next h <= next h')%nat
          /\ (forall x, (x < next h)%nat -> x <> list_of_hull -> x <> points ->
                        cell h' x = cell h x)
    | Raise _ => False
    | Timeout => O.quick_hull_right budget list_of_hull points lo hi h = Unfinished
    end.
Proof.
  induction budget as [|budget IH]; intros points lo hi h Hl Hp Hne.
  - cbn [QuickHull.quick_hull_right O.quick_hull_right]. unfold and_then, load.
    destruct (cell h points); [|reflexivity].
    exists h. rewrite app_nil_r. repeat split; auto.
  - destruct (cell h points) as [|p ps] eqn:E.
    { cbn [QuickHull.quick_hull_right O.quick_hull_right]. unfold and_then, load.
      rewrite E. exists h. rewrite app_nil_r. repeat split; auto. }
    rewrite <- E.
    assert (Hnil : cell h points <> []) by (rewrite E; discriminate).
    rewrite quick_hull_right_obj_step, QuickHull_Facts.quick_hull_right_step by assumption.
    cbn zeta. clear E p ps.
    set (max_point := QuickHull.find_max_distance (cell h points) lo hi).
    set (h1 := update points (remove max_point (cell h points)) h).
    set (h2 := update list_of_hull (cell h1 list_of_hull ++ [max_point]) h1).
    assert (C2p : cell h2 points = remove max_point (cell h points)).
    { unfold h2, h1. rewrite cell_update_other by lia.
      apply cell_update_same. }
    assert (C2l : cell h2 list_of_hull = cell h list_of_hull ++ [max_point]).
    { unfold h2, h1. rewrite cell_update_same.
      now rewrite cell_update_other by lia. }
    assert (C2o : forall x, x <> list_of_hull -> x <> points ->
                            cell h2 x = cell h x).
    { intros x H1 H2. unfold h2, h1. now rewrite !cell_update_other by lia. }
    assert (N2 : next h2 = next h) by reflexivity.
    set (h3 := alloc _ h2). assert (N3 : next h3 = S (next h)) by reflexivity.
    set (h4 := alloc _ h3). assert (N4 : next h4 = S (S (next h))) by reflexivity.
    set (h5 := alloc _ h4).
    assert (N5 : next h5 = S (S (S (next h)))) by reflexivity.
    set (h6 := alloc _ h5).
    assert (N6 : next h6 = S (S (S (S (next h))))) by reflexivity.
    assert (S3 : forall x, (x < next h2)%nat -> cell h3 x = cell h2 x)
      by (intros x Hx; now apply cell_alloc_old).
    assert (S4 : forall x, (x < next h3)%nat -> cell h4 x = cell h3 x)
      by (intros x Hx; now apply cell_alloc_old).
    assert (S5 : forall x, (x < next h4)%nat -> cell h5 x = cell h4 x)
      by (intros x Hx; now apply cell_alloc_old).
    assert (S6 : forall x, (x < next h5)%nat -> cell h6 x = cell h5 x)
      by (intros x Hx; now apply cell_alloc_old).
    assert (C4p : cell h4 points = remove max_point (cell h points))
      by (rewrite S4, S3, C2p by lia; reflexivity).
    assert (C6o : forall x, (x < next h)%nat -> cell h6 x = cell h2 x).
    { intros x Hx. now rewrite S6, S5, S4, S3 by lia. }
    assert (C61 : cell h6 (next h3)
                  = snd (QuickHull.divide_side
                           (remove max_point (cell h points)) lo max_point)).
    { rewrite S6, S5 by lia. rewrite ?S4 by lia.
      unfold h4. rewrite cell_alloc_new. now rewrite C2p. }
    assert (C62 : cell h6 (next h5)
                  = snd (QuickHull.divide_side
                           (remove max_point (cell h points)) max_point hi)).
    { rewrite ?S6 by lia.
      unfold h6. rewrite cell_alloc_new. now rewrite C4p. }
    pose proof (IH (next h3) lo max_point h6 ltac:(lia) ltac:(lia) ltac:(lia))
      as IH1.
    rewrite C61 in IH1.
    destruct (QuickHull.quick_hull_right budget _ lo max_point) as [l1| |];
      [|contradiction|now rewrite IH1].
    destruct IH1 as (h7 & -> & C7l & N7 & C7o). cbn [bind].
    pose proof (IH (next h5) max_point hi h7 ltac:(lia) ltac:(lia) ltac:(lia))
      as IH2.
    rewrite (C7o (next h5)), C62 in IH2 by lia.
    destruct (QuickHull.quick_hull_right budget _ max_point hi) as [l2| |];
      [|contradiction|exact IH2].
    destruct IH2 as (h8 & -> & C8l & N8 & C8o). cbn [bind].
    exists h8. split; [reflexivity|]. split.
    { rewrite C8l, C7l, (C6o list_of_hull), C2l by lia.
      rewrite <- !app_assoc. reflexivity. }
    split; [lia|].
    intros x Hx H1 H2.
    rewrite C8o, C7o, C6o by lia. now apply C2o.
Qed.

(** *** The five methods on the object [self.points] *)

(** A run from [h] does what the value-level function does on the contents
    of [self.points], and leaves these contents as they were. *)
Definition faithful (self_points : ref) (h : heap) (o : run ref)
           (v : outcome (list Point)) : Prop :=
  observed o = v /\ O.input_unchanged self_points h o.

Lemma andrews_monotone_chain_run (self_points : ref) (h : heap) :
  (self_points < next h)%nat ->
  faithful self_points h (O.andrews_monotone_chain self_points h)
           (andrews_monotone_chain (cell h self_points)).
Proof.
  intros Hs. unfold O.andrews_monotone_chain, andrews_monotone_chain.
  unfold and_then at 1. cbn [load]. unfold faithful, O.input_unchanged.
  destruct (_ <? _)%nat; [cbn [raise observed final_heap]; split; reflexivity|].
  cbn [and_then load new observed final_heap].
  heap_simpl. split; reflexivity.
Qed.

Lemma faithful_raise (self_points : ref) (h : heap) (e : exn) :
  faithful self_points h (Failed e h) (Raise e).
Proof. split; reflexivity. Qed.

Lemma faithful_timeout (self_points : ref) (h : heap) :
  faithful self_points h Unfinished Timeout.
Proof. split; reflexivity. Qed.

Lemma jarvis_march_run (budget : nat) (self_points : ref) (h : heap) :
  (self_points < next h)%nat ->
  faithful self_points h (O.jarvis_march_convex_hull budget self_points h)
           (jarvis_march_convex_hull budget (cell h self_points)).
Proof.
  intros Hs. unfold O.jarvis_march_convex_hull, jarvis_march_convex_hull.
  unfold and_then at 1. cbn [load].
  destruct (_ <? _)%nat; [apply faithful_raise|].
  unfold and_then at 1. cbn [new].
  pose proof (march_run budget self_points (next h) ltac:(lia)
                        (JarvisMarch.min_by_key (cell h self_points))
                        (alloc [] h)) as R.
  rewrite cell_alloc_old, cell_alloc_new in R by lia.
  destruct (JarvisMarch.march budget _ _ _) as [l| |].
  - destruct R as (h' & -> & Hc & _ & Hx). split; cbn; [congruence|].
    rewrite Hx by lia. now apply cell_alloc_old.
  - contradiction.
  - rewrite R. apply faithful_timeout.
Qed.

Lemma brute_force_run (budget : nat) (self_points : ref) (h : heap) :
  (self_points < next h)%nat ->
  faithful self_points h (O.brute_force budget self_points h)
           (brute_force budget (cell h self_points)).
Proof.
  intros Hs. unfold O.brute_force, brute_force.
  unfold and_then at 1. cbn [load].
  destruct (_ <? _)%nat.
  { split; cbn; [now rewrite Nat.eqb_refl|].
    destruct (Nat.eqb_spec self_points (next h)); [lia | reflexivity]. }
  unfold and_then at 1. cbn [new].
  pose proof (wrap_run budget self_points (next h)
                       (BruteForce.leftmost (cell h self_points)) ltac:(lia)
                       (BruteForce.leftmost (cell h self_points))
                       (alloc [] h)) as R.
  rewrite cell_alloc_old, cell_alloc_new in R by lia.
  destruct (BruteForce.wrap budget _ _ _ _) as [l| |].
  - destruct R as (h' & -> & Hc & _ & Hx). split; cbn; [congruence|].
    rewrite Hx by lia. now apply cell_alloc_old.
  - contradiction.
  - rewrite R. apply faithful_timeout.
Qed.

(** [graham_scan] deletes from the list the sort hands back, which for at
    most one point is [self.points] itself. *)
Definition faithful_from_two (self_points : ref) (h : heap) (o : run ref)
           (v : outcome (list Point)) : Prop :=
  observed o = v
  /\ ((2 <= length (cell h self_points))%nat ->
      O.input_unchanged self_points h o).

Lemma graham_scan_run (g : rng) (self_points : ref) (h : heap) :
  (self_points < next h)%nat ->
  faithful_from_two self_points h (O.graham_scan g self_points h)
                    (graham_scan g (cell h self_points)).
Proof.
  intros Hs. unfold O.graham_scan, graham_scan.
  unfold and_then at 1. cbn [load].
  destruct (GrahamScan.find_min_idx _) as [m|]; [|split; [reflexivity | intros _; unfold O.input_unchanged; reflexivity]].
  cbn zeta. set (anchor := item (cell h self_points) m).
  unfold and_then at 1.
  pose proof (quicksort_run (length (cell h self_points)) anchor
                            self_points g h Hs) as R.
  destruct (GrahamScan.quicksort _ _ _ _) as [[l g']| |];
    [|contradiction|rewrite R; split; [reflexivity | intros _; unfold O.input_unchanged; exact I]].
  destruct R as (r & h1 & -> & Cr & N1 & R1 & O1 & _ & Hfresh).
  cbn [bind]. unfold and_then at 1. cbn [load]. rewrite Cr.
  destruct (index anchor l) as [i|].
  2:{ split; [reflexivity|]. intros _. unfold O.input_unchanged. cbn. auto. }
  unfold and_then at 1. cbn [store].
  unfold and_then at 1. cbn [load]. rewrite cell_update_same.
  destruct (del i l) as [|s0 rest].
  - split; [reflexivity|]. intros Hlen. unfold O.input_unchanged. cbn [raise final_heap].
    rewrite cell_update_other by (specialize (Hfresh ltac:(lia)); lia). auto.
  - split; [cbn; now rewrite Nat.eqb_refl|].
    intros Hlen. unfold O.input_unchanged. cbn [new final_heap].
    rewrite cell_alloc_old by (rewrite next_update; lia).
    rewrite cell_update_other by (specialize (Hfresh ltac:(lia)); lia). auto.
Qed.

(** [quickhull] removes points only from the lists [divide_side] made. *)
Definition faithful_quickhull (self_points : ref) (h : heap)
           (o : run O.quickhull_value) (v : outcome hull_shape) : Prop :=
  O.observed_quickhull o = v /\ O.input_unchanged self_points h o.

Lemma quickhull_run (self_points : ref) (h : heap) :
  (self_points < next h)%nat ->
  faithful_quickhull self_points h (O.quickhull self_points h)
                     (quickhull (cell h self_points)).
Proof.
  intros Hs. unfold O.quickhull, quickhull.
  unfold and_then at 1. cbn [load].
  destruct (_ <=? _)%nat; [split; reflexivity|].
  destruct (QuickHull.find_min_and_max _) as [lo hi].
  destruct (QuickHull.divide_side _ lo hi) as [lefts rights]. cbn [fst snd].
  do 4 (unfold and_then at 1; cbn [new load]).
  set (h1 := alloc lefts h). set (h2 := alloc rights h1).
  set (h3 := alloc [lo; hi] h2).
  assert (N1 : next h1 = S (next h)) by reflexivity.
  assert (N2 : next h2 = S (S (next h))) by reflexivity.
  assert (N3 : next h3 = S (S (S (next h)))) by reflexivity.
  assert (C3l : cell h3 (next h) = lefts)
    by (unfold h3, h2, h1; now heap_simpl).
  assert (C3r : cell h3 (next h1) = rights)
    by (unfold h3, h2; now heap_simpl).
  assert (C3h : cell h3 (next h2) = [lo; hi]) by apply cell_alloc_new.
  assert (C3s : cell h3 self_points = cell h self_points)
    by (unfold h3, h2, h1; now heap_simpl).
  rewrite C3l.
  pose proof (quick_hull_left_run (length lefts) (next h2) (next h) lo hi h3
                ltac:(lia) ltac:(lia) ltac:(lia)) as RL.
  rewrite C3l in RL. unfold and_then at 1.
  destruct (QuickHull.quick_hull_left _ _ _ _) as [l| |];
    [|contradiction|rewrite RL; split; reflexivity].
  destruct RL as (h4 & -> & C4h & N4 & O4). cbn [bind].
  unfold and_then at 1. cbn [load].
  assert (C4r : cell h4 (next h1) = rights) by (rewrite O4 by lia; exact C3r).
  rewrite C4r.
  pose proof (quick_hull_right_run (length rights) (next h2) (next h1) lo hi h4
                ltac:(lia) ltac:(lia) ltac:(lia)) as RR.
  rewrite C4r in RR. unfold and_then at 1.
  destruct (QuickHull.quick_hull_right _ _ _ _) as [r| |];
    [|contradiction|rewrite RR; split; reflexivity].
  destruct RR as (h5 & -> & C5h & N5 & O5). cbn [bind].
  cbn [and_then load store ret]. rewrite cell_update_same.
  split.
  - cbn [O.observed_quickhull ret]. rewrite C5h, C4h, C3h. reflexivity.
  - unfold O.input_unchanged. cbn [final_heap ret].
    rewrite cell_update_other by lia.
    rewrite O5, O4 by lia. exact C3s.
Qed.

(** C10.  When [self.points] holds at least two points, every one of the
    five methods leaves it as it was, elements and order, whether the call
    returns or raises; the sorting, deleting and removing all happen in
    lists the methods made themselves. *)
Theorem input_list_unchanged (self_points : ref) (h : heap) (g : rng)
        (budget : nat) :
  (self_points < next h)%nat ->
  (2 <= length (cell h self_points))%nat ->
  O.input_unchanged self_points h (O.graham_scan g self_points h)
  /\ O.input_unchanged self_points h
       (O.jarvis_march_convex_hull budget self_points h)
  /\ O.input_unchanged self_points h (O.quickhull self_points h)
  /\ O.input_unchanged self_points h (O.andrews_monotone_chain self_points h)
  /\ O.input_unchanged self_points h (O.brute_force budget self_points h).
Proof.
  intros Hs Hlen. repeat apply conj.
  - now apply (graham_scan_run g self_points h Hs).
  - apply (jarvis_march_run budget self_points h Hs).
  - apply (quickhull_run self_points h Hs).
  - apply (andrews_monotone_chain_run self_points h Hs).
  - apply (brute_force_run budget self_points h Hs).
Qed.

Lemma input_list_unchanged_witness :
  O.input_unchanged 0%nat (O.app_heap [(0, 0); (4, 1); (2, 5); (2, 2)])
                    (O.graham_scan (fun _ => O) 0%nat
                       (O.app_heap [(0, 0); (4, 1); (2, 5); (2, 2)]))
  /\ O.input_unchanged 0%nat (O.app_heap [(0, 0); (4, 1); (2, 5); (2, 2)])
                       (O.quickhull 0%nat
                          (O.app_heap [(0, 0); (4, 1); (2, 5); (2, 2)])).
Proof.
  destruct (input_list_unchanged
              0%nat (O.app_heap [(0, 0); (4, 1); (2, 5); (2, 2)])
              (fun _ => O) 4%nat) as (Hg & _ & Hq & _);
    [cbn; lia | cbn; lia |].
  split; [exact Hg | exact Hq].
Defined.

(** With a single point the list is not left alone: the sort hands back
    [self.points] itself, the anchor is deleted from it, and the call then
    raises with the list emptied. *)
Lemma graham_scan_empties_single_point (g : rng) (self_points : ref)
      (h : heap) (p : Point) :
  (self_points < next h)%nat -> cell h self_points = [p] ->
  exists h', O.graham_scan g self_points h = Failed IndexError h'
             /\ cell h' self_points = [].
Proof.
  intros Hs Hp. unfold O.graham_scan. unfold and_then at 1. cbn [load].
  pose proof (quicksort_run (length (cell h self_points)) p self_points g h Hs)
    as R.
  rewrite Hp in *.
  assert (E : GrahamScan.find_min_idx [p] = Some O).
  { destruct p as [x y]. unfold GrahamScan.find_min_idx. cbn.
    now destruct (_ && _). }
  rewrite E. cbn [item nth]. cbn [GrahamScan.quicksort length Nat.leb] in R.
  destruct R as (r & h1 & E1 & Cr & _ & _ & _ & Hsame & _).
  destruct (Hsame (le_n _)) as [-> _].
  unfold and_then at 1. cbn [length]. rewrite E1.
  unfold and_then at 1. cbn [load]. rewrite Cr.
  cbn [index]. rewrite point_eqb_refl.
  unfold and_then at 1. cbn [store].
  unfold and_then at 1. cbn [load]. rewrite cell_update_same. cbn [del raise].
  eexists. split; [reflexivity | apply cell_update_same].
Qed.

End Objects_Facts.
